(** * Batching of interest-rate swaps

    A shallow embedding of
    [tf_quant_finance/experimental/pricing_platform/framework/rate_instruments/interest_rate_swap/proto_utils.py]:
    the key derivation that decides which swaps share a batch, the hasher,
    the leg materialiser and the accumulate/merge loop, in both the legacy
    and the [_v2] pipelines.

    Conventions of the embedding.
    - Proto enum values and proto integers are [Z]; [None] in a key vector is
      [None : option Z].
    - Python doubles are binary64 primitive floats; unary minus is
      [PrimFloat.opp].
    - A Python dict keyed by digest strings is a [gmap string _].
    - An in-place update of an object returns the object after the call
      together with the exception raised, if any, so that what a failed call
      left behind stays visible.
    - A call that builds a value and may raise returns a [result].
    - Modules the file imports but that are not part of it (enum conversions,
      [decimal_to_double], [hashlib.md5]) are the fields of the class
      [Collaborators]; every result holds for all of them. The enum
      conversions raise on a code they do not know, so they return a
      [result]. *)

From Stdlib Require Import ZArith Ascii String PrimFloat.
From stdpp Require Import gmap strings list pretty.

(** ** Exceptions and results *)

Inductive Exception := ValueError (msg : string).

Inductive result (A : Type) :=
  | Ok (a : A)
  | Raise (e : Exception).
Global Arguments Ok {A} a.
Global Arguments Raise {A} e.

Global Instance Exception_eq_dec : EqDecision Exception.
Proof. solve_decision. Defined.

(** Sequencing: the first exception ends the computation. *)
Global Instance result_ret : MRet result := λ A a, Ok a.
Global Instance result_bind : MBind result := λ A B f r,
  match r with
  | Ok a => f a
  | Raise e => Raise e
  end.

(** The call returned. *)
Definition is_Ok {A : Type} (r : result A) : Prop := ∃ a, r = Ok a.

(** ** Collaborators *)

Class Collaborators := {
  (** proto [Decimal] message and [instrument_utils.decimal_to_double] *)
  Decimal : Type;
  decimal_to_double : Decimal → float;
  (** [currencies.from_proto_value] *)
  Currency : Type;
  currency_from_proto_value : Z → result Currency;
  (** [business_days.convention_from_proto_value] *)
  BusinessDayConvention : Type;
  convention_from_proto_value : Z → result BusinessDayConvention;
  (** [daycount_conventions.from_proto_value] *)
  DayCountConvention : Type;
  daycount_from_proto_value : Z → result DayCountConvention;
  (** [business_days.holiday_from_proto_value] *)
  HolidayCalendar : Type;
  holiday_from_proto_value : Z → result HolidayCalendar;
  (** the three fields of [rate_indices.RateIndex] and their conversions
      inside [RateIndex.from_proto]; [!=] on the type and its rendering
      inside an f-string *)
  RateIndexType : Type;
  RateIndexType_eq_dec :: EqDecision RateIndexType;
  RateIndexName : Type;
  RateIndexSource : Type;
  rate_index_type_from_proto : Z → result RateIndexType;
  rate_index_name_from_proto : Z → result RateIndexName;
  rate_index_source_from_proto : string → result RateIndexSource;
  str_RateIndexType : RateIndexType → string;
  (** [hashlib.md5(text.encode()).hexdigest()] *)
  md5_hexdigest : string → string;
  (** the [swap_config] argument, stored and never inspected *)
  InterestRateSwapConfig : Type;
}.

(** ** Proto messages (input boundary) *)

(** [period_pb2.Period]: a frequency as (type code, amount). *)
Record Period := { freq_type : Z; freq_amount : Z }.

(** proto [RateIndex]: two enum codes and the source, a string. *)
Record RateIndexProto := {
  index_type : Z; index_name : Z; index_source : string }.

Record DateProto := { year : Z; month : Z; day : Z }.

Record Metadata := {
  metadata_id : string; metadata_instrument_type : string }.

Section Model.
Context `{Collaborators}.

Record FixedLeg := {
  fixed_currency : Z;
  fixed_coupon_frequency : Period;
  fixed_notional_amount : Decimal;
  fixed_fixed_rate : Decimal;
  fixed_settlement_days : Z;
  fixed_business_day_convention : Z;
  fixed_daycount_convention : Z;
  fixed_bank_holidays : Z }.

Record FloatingLeg := {
  floating_currency : Z;
  floating_coupon_frequency : Period;
  floating_reset_frequency : Period;
  floating_notional_amount : Decimal;
  floating_floating_rate_type : RateIndexProto;
  floating_settlement_days : Z;
  floating_business_day_convention : Z;
  floating_daycount_convention : Z;
  floating_spread : Decimal;
  floating_bank_holidays : Z }.

(** [ir_swap.SwapLeg] is a oneof. [HasField("fixed_leg")] selects the first
    constructor; every other leg is read through [.floating_leg]. *)
Inductive SwapLeg :=
  | fixed_leg (leg : FixedLeg)
  | floating_leg (leg : FloatingLeg).

Record InterestRateSwap := {
  pay_leg : SwapLeg;
  receive_leg : SwapLeg;
  effective_date : DateProto;
  maturity_date : DateProto;
  currency : Z;
  bank_holidays : Z;
  metadata : Metadata }.

(** ** Leg descriptors ([coupon_specs]) *)

(** [rate_indices.RateIndex] after [leg_from_proto] wrapped name and source
    into lists. *)
Record RateIndex := {
  ri_type : RateIndexType;
  ri_name : list RateIndexName;
  ri_source : list RateIndexSource }.

(** The two dataclasses hold values of different shapes in the two
    pipelines (a currency or a list of currencies, a [Period] or a pair of a
    type and a list of amounts, one rate index or a list of them), hence the
    type parameters [C], [F] and [I]. *)
Record FixedCouponSpecs (C F : Type) := {
  fx_currency : C;
  fx_coupon_frequency : F;
  fx_notional_amount : list float;
  fx_fixed_rate : list float;
  fx_settlement_days : list Z;
  fx_businessday_rule : BusinessDayConvention;
  fx_daycount_convention : DayCountConvention;
  fx_calendar : HolidayCalendar }.

Record FloatCouponSpecs (C F I : Type) := {
  fl_currency : C;
  fl_coupon_frequency : F;
  fl_reset_frequency : F;
  fl_notional_amount : list float;
  fl_floating_rate_type : I;
  fl_settlement_days : list Z;
  fl_businessday_rule : BusinessDayConvention;
  fl_daycount_convention : DayCountConvention;
  fl_spread : list float;
  fl_calendar : HolidayCalendar }.

Inductive CouponSpecs (C F I : Type) :=
  | Fixed (specs : FixedCouponSpecs C F)
  | Float (specs : FloatCouponSpecs C F I).

End Model.

Global Arguments Build_FixedCouponSpecs {_ C F}.
Global Arguments fx_currency {_ C F}.
Global Arguments fx_coupon_frequency {_ C F}.
Global Arguments fx_notional_amount {_ C F}.
Global Arguments fx_fixed_rate {_ C F}.
Global Arguments fx_settlement_days {_ C F}.
Global Arguments fx_businessday_rule {_ C F}.
Global Arguments fx_daycount_convention {_ C F}.
Global Arguments fx_calendar {_ C F}.
Global Arguments Build_FloatCouponSpecs {_ C F I}.
Global Arguments fl_currency {_ C F I}.
Global Arguments fl_coupon_frequency {_ C F I}.
Global Arguments fl_reset_frequency {_ C F I}.
Global Arguments fl_notional_amount {_ C F I}.
Global Arguments fl_floating_rate_type {_ C F I}.
Global Arguments fl_settlement_days {_ C F I}.
Global Arguments fl_businessday_rule {_ C F I}.
Global Arguments fl_daycount_convention {_ C F I}.
Global Arguments fl_spread {_ C F I}.
Global Arguments fl_calendar {_ C F I}.
Global Arguments Fixed {_ C F I}.
Global Arguments Float {_ C F I}.

(** ** Frequency normaliser and leg key extractors *)

(** [_frequency_and_multiplier]: the multiplier is the constant 1. *)
Definition _frequency_and_multiplier (freq_type : Z) : Z * Z :=
  let multiplier := 1%Z in
  let freq_type := if decide (freq_type = 5%Z) then 3%Z else freq_type in
  (freq_type, multiplier).

(** [n * [None]] *)
Definition nones (n : nat) : list (option Z) := replicate n None.

Section Keys.
Context `{Collaborators}.

Definition _fixed_leg_key (leg : FixedLeg) : list (option Z) :=
  [Some (freq_type (fixed_coupon_frequency leg));
   Some (freq_amount (fixed_coupon_frequency leg));
   Some (fixed_daycount_convention leg);
   Some (fixed_business_day_convention leg)].

Definition _floating_leg_key (leg : FloatingLeg) : list (option Z) :=
  let rate_index := floating_floating_rate_type leg in
  [Some (freq_type (floating_coupon_frequency leg));
   Some (freq_amount (floating_coupon_frequency leg));
   Some (freq_type (floating_reset_frequency leg));
   Some (freq_amount (floating_reset_frequency leg));
   Some (floating_daycount_convention leg);
   Some (floating_business_day_convention leg);
   Some (index_type rate_index)].

Definition _get_keys (leg : SwapLeg) : list (option Z) * list (option Z) :=
  match leg with
  | fixed_leg leg => (_fixed_leg_key leg, nones 7)
  | floating_leg leg => (nones 4, _floating_leg_key leg)
  end.

Definition _fixed_leg_key_v2 (leg : FixedLeg) : list (option Z) :=
  let coupon_freq_type := freq_type (fixed_coupon_frequency leg) in
  let coupon_freq_type :=
    if decide (coupon_freq_type = 5%Z) then 3%Z else coupon_freq_type in
  [Some coupon_freq_type;
   Some (fixed_daycount_convention leg);
   Some (fixed_business_day_convention leg)].

Definition _floating_leg_key_v2 (leg : FloatingLeg) : list (option Z) :=
  let coupon_freq_type := freq_type (floating_coupon_frequency leg) in
  let '(coupon_freq_type, _) := _frequency_and_multiplier coupon_freq_type in
  let reset_freq_type := freq_type (floating_reset_frequency leg) in
  let '(reset_freq_type, _) := _frequency_and_multiplier reset_freq_type in
  [Some coupon_freq_type;
   Some reset_freq_type;
   Some (floating_daycount_convention leg);
   Some (floating_business_day_convention leg)].

Definition _get_keys_v2 (leg : SwapLeg) : list (option Z) * list (option Z) :=
  match leg with
  | fixed_leg leg => (_fixed_leg_key_v2 leg, nones 4)
  | floating_leg leg => (nones 3, _floating_leg_key_v2 leg)
  end.

(** [key[0] is None]; the key vectors are never empty. *)
Definition first_is_None (key : list (option Z)) : bool :=
  match key with
  | None :: _ => true
  | _ => false
  end.

(** The body shared by [_get_legs_hash_key] and [_get_legs_hash_key_v2],
    which differ in the key extractor only. *)
Definition legs_hash_key_with
    (get_keys : SwapLeg → list (option Z) * list (option Z))
    (leg_1 leg_2 : SwapLeg) : bool * list (option Z) :=
  let '(pay_leg_key_1, pay_leg_key_2) := get_keys leg_1 in
  let '(receive_leg_key_1, receive_leg_key_2) := get_keys leg_2 in
  let key_1 := pay_leg_key_1 ++ pay_leg_key_2 in
  let key_2 := receive_leg_key_1 ++ receive_leg_key_2 in
  let flip_legs := false in
  let flip_legs :=
    if first_is_None pay_leg_key_1 && negb (first_is_None receive_leg_key_1)
    then true else flip_legs in
  if flip_legs then (flip_legs, key_2 ++ key_1) else (flip_legs, key_1 ++ key_2).

Definition _get_legs_hash_key := legs_hash_key_with _get_keys.
Definition _get_legs_hash_key_v2 := legs_hash_key_with _get_keys_v2.

(** ** Hasher *)

(** [json.dumps] of a tuple of integers and [None]s: decimal numerals and
    [null], separated by a comma and a space, between square brackets. *)
Definition json_scalar (v : option Z) : string :=
  match v with
  | None => "null"
  | Some n => pretty n
  end.

Definition json_dumps (obj : list (option Z)) : string :=
  "[" +:+ String.concat ", " (json_scalar <$> obj) +:+ "]".

Definition _hasher (obj : list (option Z)) : string :=
  md5_hexdigest (json_dumps obj).

Definition get_hash (swap_proto : InterestRateSwap) : string * bool :=
  let pay_leg := pay_leg swap_proto in
  let receive_leg := receive_leg swap_proto in
  let '(flip_legs, key) := _get_legs_hash_key pay_leg receive_leg in
  let currency := currency swap_proto in
  let bank_holidays := bank_holidays swap_proto in
  let h := _hasher (key ++ [Some currency] ++ [Some bank_holidays]) in
  (h, flip_legs).

Definition get_hash_v2 (swap_proto : InterestRateSwap) : string * bool :=
  let pay_leg := pay_leg swap_proto in
  let receive_leg := receive_leg swap_proto in
  let '(flip_legs, key) := _get_legs_hash_key_v2 pay_leg receive_leg in
  let bank_holidays := bank_holidays swap_proto in
  let h := _hasher (key ++ [Some bank_holidays]) in
  (h, flip_legs).

(** ** Grouping of protos *)

(** The loop shared by [group_protos] and [group_protos_v2]. *)
Definition group_step (hash : InterestRateSwap → string * bool)
    (grouped_swaps : gmap string (list InterestRateSwap))
    (swap_proto : InterestRateSwap) : gmap string (list InterestRateSwap) :=
  let '(h, _) := hash swap_proto in
  match grouped_swaps !! h with
  | Some group => <[h := group ++ [swap_proto]]> grouped_swaps
  | None => <[h := [swap_proto]]> grouped_swaps
  end.

(** [del swap_config] comes first: the argument is bound and dropped. *)
Definition group_protos (proto_list : list InterestRateSwap)
    (swap_config : option InterestRateSwapConfig)
    : gmap string (list InterestRateSwap) :=
  foldl (group_step get_hash) ∅ proto_list.

Definition group_protos_v2 (proto_list : list InterestRateSwap)
    (swap_config : option InterestRateSwapConfig)
    : gmap string (list InterestRateSwap) :=
  foldl (group_step get_hash_v2) ∅ proto_list.

End Keys.

(** ** Leg materialiser *)

(** Leg descriptors of the legacy pipeline and of the v2 pipeline. *)
Abbreviation Leg := (CouponSpecs Currency Period RateIndex).
Abbreviation LegV2 := (CouponSpecs (list Currency) (Z * list Z) (list RateIndex)).

Section Legs.
Context `{Collaborators}.

(** [rate_indices.RateIndex.from_proto] followed by the two assignments
    that wrap the name and the source into one-element lists. The class is
    not part of this file; it converts the three fields one by one and
    raises when one of them has no counterpart. *)
Definition rate_index_from_proto (rate_index : RateIndexProto)
    : result RateIndex :=
  type ← rate_index_type_from_proto (index_type rate_index);
  name ← rate_index_name_from_proto (index_name rate_index);
  source ← rate_index_source_from_proto (index_source rate_index);
  Ok {| ri_type := type; ri_name := [name]; ri_source := [source] |}.

(** The arguments of the two constructors are evaluated in the order in
    which they are written, so the conversions are sequenced in that order;
    the first one that raises ends the call. *)
Definition leg_from_proto (leg_proto : SwapLeg) : result Leg :=
  match leg_proto with
  | fixed_leg leg =>
      currency ← currency_from_proto_value (fixed_currency leg);
      businessday_rule ←
        convention_from_proto_value (fixed_business_day_convention leg);
      daycount_convention ←
        daycount_from_proto_value (fixed_daycount_convention leg);
      calendar ← holiday_from_proto_value (fixed_bank_holidays leg);
      Ok (Fixed {|
        fx_currency := currency;
        fx_coupon_frequency := fixed_coupon_frequency leg;
        fx_notional_amount := [decimal_to_double (fixed_notional_amount leg)];
        fx_fixed_rate := [decimal_to_double (fixed_fixed_rate leg)];
        fx_settlement_days := [fixed_settlement_days leg];
        fx_businessday_rule := businessday_rule;
        fx_daycount_convention := daycount_convention;
        fx_calendar := calendar |})
  | floating_leg leg =>
      rate_index ← rate_index_from_proto (floating_floating_rate_type leg);
      currency ← currency_from_proto_value (floating_currency leg);
      businessday_rule ←
        convention_from_proto_value (floating_business_day_convention leg);
      daycount_convention ←
        daycount_from_proto_value (floating_daycount_convention leg);
      calendar ← holiday_from_proto_value (floating_bank_holidays leg);
      Ok (Float {|
        fl_currency := currency;
        fl_coupon_frequency := floating_coupon_frequency leg;
        fl_reset_frequency := floating_reset_frequency leg;
        fl_notional_amount :=
          [decimal_to_double (floating_notional_amount leg)];
        fl_floating_rate_type := rate_index;
        fl_settlement_days := [floating_settlement_days leg];
        fl_businessday_rule := businessday_rule;
        fl_daycount_convention := daycount_convention;
        fl_spread := [decimal_to_double (floating_spread leg)];
        fl_calendar := calendar |})
  end.

Definition leg_from_proto_v2 (leg_proto : SwapLeg) : result LegV2 :=
  match leg_proto with
  | fixed_leg leg =>
      let coupon_freq := freq_type (fixed_coupon_frequency leg) in
      let '(coupon_freq, coupon_freq_multiplier) :=
        _frequency_and_multiplier coupon_freq in
      currency ← currency_from_proto_value (fixed_currency leg);
      businessday_rule ←
        convention_from_proto_value (fixed_business_day_convention leg);
      daycount_convention ←
        daycount_from_proto_value (fixed_daycount_convention leg);
      calendar ← holiday_from_proto_value (fixed_bank_holidays leg);
      Ok (Fixed {|
        fx_currency := [currency];
        fx_coupon_frequency :=
          (coupon_freq,
           [(coupon_freq_multiplier
             * freq_amount (fixed_coupon_frequency leg))%Z]);
        fx_notional_amount := [decimal_to_double (fixed_notional_amount leg)];
        fx_fixed_rate := [decimal_to_double (fixed_fixed_rate leg)];
        fx_settlement_days := [fixed_settlement_days leg];
        fx_businessday_rule := businessday_rule;
        fx_daycount_convention := daycount_convention;
        fx_calendar := calendar |})
  | floating_leg leg =>
      rate_index ← rate_index_from_proto (floating_floating_rate_type leg);
      let coupon_freq := freq_type (floating_coupon_frequency leg) in
      let '(coupon_freq, coupon_freq_multiplier) :=
        _frequency_and_multiplier coupon_freq in
      let reset_freq := freq_type (floating_reset_frequency leg) in
      let '(reset_freq, reset_freq_multiplier) :=
        _frequency_and_multiplier reset_freq in
      currency ← currency_from_proto_value (floating_currency leg);
      businessday_rule ←
        convention_from_proto_value (floating_business_day_convention leg);
      daycount_convention ←
        daycount_from_proto_value (floating_daycount_convention leg);
      calendar ← holiday_from_proto_value (floating_bank_holidays leg);
      Ok (Float {|
        fl_currency := [currency];
        fl_coupon_frequency :=
          (coupon_freq,
           [(coupon_freq_multiplier
             * freq_amount (floating_coupon_frequency leg))%Z]);
        fl_reset_frequency :=
          (reset_freq,
           [(reset_freq_multiplier
             * freq_amount (floating_reset_frequency leg))%Z]);
        fl_notional_amount :=
          [decimal_to_double (floating_notional_amount leg)];
        fl_floating_rate_type := [rate_index];
        fl_settlement_days := [floating_settlement_days leg];
        fl_businessday_rule := businessday_rule;
        fl_daycount_convention := daycount_convention;
        fl_spread := [decimal_to_double (floating_spread leg)];
        fl_calendar := calendar |})
  end.

(** ** Merging of leg descriptors *)

Definition type_mismatch : Exception :=
  ValueError
    "Both `current_leg` and `leg` should beof the same fixed or float type.".

(** [update_rate_index]: the index after the call and what was raised. *)
Definition update_rate_index (current_index index : RateIndex)
    : RateIndex * option Exception :=
  if decide (ri_type current_index ≠ ri_type index) then
    (current_index,
     Some (ValueError ("Can not join " +:+ str_RateIndexType (ri_type current_index)
                       +:+ " and " +:+ str_RateIndexType (ri_type index))))
  else
    ({| ri_type := ri_type current_index;
        ri_name := ri_name current_index ++ ri_name index;
        ri_source := ri_source current_index ++ ri_source index |}, None).

(** [update_leg]: [current_leg] after the call and what was raised. In the
    floating branch the notional is extended before [update_rate_index] is
    called, so an exception from there leaves the longer notional behind. *)
Definition update_leg (current_leg leg : Leg) : Leg * option Exception :=
  match current_leg with
  | Fixed cur =>
      match leg with
      | Fixed new =>
          (Fixed {|
             fx_currency := fx_currency cur;
             fx_coupon_frequency := fx_coupon_frequency cur;
             fx_notional_amount :=
               fx_notional_amount cur ++ fx_notional_amount new;
             fx_fixed_rate := fx_fixed_rate cur ++ fx_fixed_rate new;
             fx_settlement_days :=
               fx_settlement_days cur ++ fx_settlement_days new;
             fx_businessday_rule := fx_businessday_rule cur;
             fx_daycount_convention := fx_daycount_convention cur;
             fx_calendar := fx_calendar cur |}, None)
      | Float _ => (current_leg, Some type_mismatch)
      end
  | Float cur =>
      match leg with
      | Float new =>
          let notional_amount :=
            fl_notional_amount cur ++ fl_notional_amount new in
          let '(rate_index, raised) :=
            update_rate_index (fl_floating_rate_type cur)
                              (fl_floating_rate_type new) in
          match raised with
          | Some e =>
              (Float {|
                 fl_currency := fl_currency cur;
                 fl_coupon_frequency := fl_coupon_frequency cur;
                 fl_reset_frequency := fl_reset_frequency cur;
                 fl_notional_amount := notional_amount;
                 fl_floating_rate_type := rate_index;
                 fl_settlement_days := fl_settlement_days cur;
                 fl_businessday_rule := fl_businessday_rule cur;
                 fl_daycount_convention := fl_daycount_convention cur;
                 fl_spread := fl_spread cur;
                 fl_calendar := fl_calendar cur |}, Some e)
          | None =>
              (Float {|
                 fl_currency := fl_currency cur;
                 fl_coupon_frequency := fl_coupon_frequency cur;
                 fl_reset_frequency := fl_reset_frequency cur;
                 fl_notional_amount := notional_amount;
                 fl_floating_rate_type := rate_index;
                 fl_settlement_days :=
                   fl_settlement_days cur ++ fl_settlement_days new;
                 fl_businessday_rule := fl_businessday_rule cur;
                 fl_daycount_convention := fl_daycount_convention cur;
                 fl_spread := fl_spread cur ++ fl_spread new;
                 fl_calendar := fl_calendar cur |}, None)
          end
      | Fixed _ => (current_leg, Some type_mismatch)
      end
  end.

Definition update_leg_v2 (current_leg leg : LegV2) : LegV2 * option Exception :=
  match current_leg with
  | Fixed cur =>
      match leg with
      | Fixed new =>
          (Fixed {|
             fx_currency := fx_currency cur ++ fx_currency new;
             fx_coupon_frequency :=
               ((fx_coupon_frequency cur).1,
                (fx_coupon_frequency cur).2 ++ (fx_coupon_frequency new).2);
             fx_notional_amount :=
               fx_notional_amount cur ++ fx_notional_amount new;
             fx_fixed_rate := fx_fixed_rate cur ++ fx_fixed_rate new;
             fx_settlement_days :=
               fx_settlement_days cur ++ fx_settlement_days new;
             fx_businessday_rule := fx_businessday_rule cur;
             fx_daycount_convention := fx_daycount_convention cur;
             fx_calendar := fx_calendar cur |}, None)
      | Float _ => (current_leg, Some type_mismatch)
      end
  | Float cur =>
      match leg with
      | Float new =>
          (Float {|
             fl_currency := fl_currency cur ++ fl_currency new;
             fl_coupon_frequency :=
               ((fl_coupon_frequency cur).1,
                (fl_coupon_frequency cur).2 ++ (fl_coupon_frequency new).2);
             fl_reset_frequency :=
               ((fl_reset_frequency cur).1,
                (fl_reset_frequency cur).2 ++ (fl_reset_frequency new).2);
             fl_notional_amount :=
               fl_notional_amount cur ++ fl_notional_amount new;
             fl_floating_rate_type :=
               fl_floating_rate_type cur ++ fl_floating_rate_type new;
             fl_settlement_days :=
               fl_settlement_days cur ++ fl_settlement_days new;
             fl_businessday_rule := fl_businessday_rule cur;
             fl_daycount_convention := fl_daycount_convention cur;
             fl_spread := fl_spread cur ++ fl_spread new;
             fl_calendar := fl_calendar cur |}, None)
      | Fixed _ => (current_leg, Some type_mismatch)
      end
  end.

End Legs.

(** ** Batch accumulator *)

(** One bucket of the result; the fields are the keys of the dict the
    source builds. [batch_names] holds the pairs [[name, instrument_type]]. *)
Record Batch `{Collaborators} (L : Type) := {
  start_date : list (list Z);
  maturity_date_list : list (list Z);
  batch_pay_leg : L;
  batch_receive_leg : L;
  swap_config : option InterestRateSwapConfig;
  batch_names : list (string * string) }.
Global Arguments Build_Batch {_ L}.
Global Arguments start_date {_ L}.
Global Arguments maturity_date_list {_ L}.
Global Arguments batch_pay_leg {_ L}.
Global Arguments batch_receive_leg {_ L}.
Global Arguments swap_config {_ L}.
Global Arguments batch_names {_ L}.

Section Accumulator.
Context `{Collaborators}.

(** [leg.notional_amount = [-el for el in leg.notional_amount]] *)
Definition negate_notional {C F I} (leg : CouponSpecs C F I) : CouponSpecs C F I :=
  match leg with
  | Fixed l =>
      Fixed {|
        fx_currency := fx_currency l;
        fx_coupon_frequency := fx_coupon_frequency l;
        fx_notional_amount := PrimFloat.opp <$> fx_notional_amount l;
        fx_fixed_rate := fx_fixed_rate l;
        fx_settlement_days := fx_settlement_days l;
        fx_businessday_rule := fx_businessday_rule l;
        fx_daycount_convention := fx_daycount_convention l;
        fx_calendar := fx_calendar l |}
  | Float l =>
      Float {|
        fl_currency := fl_currency l;
        fl_coupon_frequency := fl_coupon_frequency l;
        fl_reset_frequency := fl_reset_frequency l;
        fl_notional_amount := PrimFloat.opp <$> fl_notional_amount l;
        fl_floating_rate_type := fl_floating_rate_type l;
        fl_settlement_days := fl_settlement_days l;
        fl_businessday_rule := fl_businessday_rule l;
        fl_daycount_convention := fl_daycount_convention l;
        fl_spread := fl_spread l;
        fl_calendar := fl_calendar l |}
  end.

Definition date_list (d : DateProto) : list Z := [year d; month d; day d].

(** [from_protos] and [from_protos_v2] are the same text up to the three
    functions they call: the hash, the materialiser and the merge. *)
Section Pipeline.
Context {C F I : Type}.
Local Abbreviation L := (CouponSpecs C F I).
Variable hash : InterestRateSwap → string * bool.
Variable materialise : SwapLeg → result L.
Variable update : L → L → L * option Exception.

(** Lines 264-275: the two materialised legs in their final roles. The
    pay leg is materialised first; an exception of a materialiser ends the
    call. *)
Definition shuffled_legs (swap_proto : InterestRateSwap) (flip_legs : bool)
    : result (L * L) :=
  pay_leg_shuffled ← materialise (pay_leg swap_proto);
  receive_leg_shuffled ← materialise (receive_leg swap_proto);
  if flip_legs then
    let receive_leg_shuffled := negate_notional receive_leg_shuffled in
    let pay_leg_shuffled := negate_notional pay_leg_shuffled in
    Ok (receive_leg_shuffled, pay_leg_shuffled)
  else
    Ok (pay_leg_shuffled, receive_leg_shuffled).

(** One iteration of the loop over [proto_list]. *)
Definition prepare_step (config : option InterestRateSwapConfig)
    (prepare_swaps : gmap string (Batch L)) (swap_proto : InterestRateSwap)
    : result (gmap string (Batch L)) :=
  let '(h, flip_legs) := hash swap_proto in
  let start := date_list (effective_date swap_proto) in
  let maturity := date_list (maturity_date swap_proto) in
  '(pay_leg, receive_leg) ← shuffled_legs swap_proto flip_legs;
  let name := metadata_id (metadata swap_proto) in
  let instrument_type := metadata_instrument_type (metadata swap_proto) in
  match prepare_swaps !! h with
  | Some batch =>
      let '(current_pay_leg, raised) := update (batch_pay_leg batch) pay_leg in
      match raised with
      | Some e => Raise e
      | None =>
          let '(current_receive_leg, raised) :=
            update (batch_receive_leg batch) receive_leg in
          match raised with
          | Some e => Raise e
          | None =>
              Ok (<[h := {|
                    start_date := start_date batch ++ [start];
                    maturity_date_list := maturity_date_list batch ++ [maturity];
                    batch_pay_leg := current_pay_leg;
                    batch_receive_leg := current_receive_leg;
                    swap_config := swap_config batch;
                    batch_names :=
                      batch_names batch ++ [(name, instrument_type)] |}]>
                  prepare_swaps)
          end
      end
  | None =>
      Ok (<[h := {|
            start_date := [start];
            maturity_date_list := [maturity];
            batch_pay_leg := pay_leg;
            batch_receive_leg := receive_leg;
            swap_config := config;
            batch_names := [(name, instrument_type)] |}]> prepare_swaps)
  end.

(** The loop; an exception ends it and the dict built so far is lost. *)
Fixpoint prepare_loop (config : option InterestRateSwapConfig)
    (prepare_swaps : gmap string (Batch L))
    (proto_list : list InterestRateSwap) : result (gmap string (Batch L)) :=
  match proto_list with
  | [] => Ok prepare_swaps
  | swap_proto :: rest =>
      match prepare_step config prepare_swaps swap_proto with
      | Ok prepare_swaps => prepare_loop config prepare_swaps rest
      | Raise e => Raise e
      end
  end.

End Pipeline.

Definition from_protos (proto_list : list InterestRateSwap)
    (config : option InterestRateSwapConfig) : result (gmap string (Batch Leg)) :=
  prepare_loop get_hash leg_from_proto update_leg config ∅ proto_list.

Definition from_protos_v2 (proto_list : list InterestRateSwap)
    (config : option InterestRateSwapConfig)
    : result (gmap string (Batch LegV2)) :=
  prepare_loop get_hash_v2 leg_from_proto_v2 update_leg_v2 config ∅ proto_list.

End Accumulator.

(** ** Vocabulary of the specification *)

(** The definitions of this part are not taken from the source: they name
    what the properties below talk about. *)

Section Vocabulary.
Context `{Collaborators}.

(** The kind of a leg proto and of a leg descriptor. *)
Definition is_fixed_proto (leg : SwapLeg) : bool :=
  match leg with fixed_leg _ => true | floating_leg _ => false end.

Definition is_fixed_specs {C F I} (leg : CouponSpecs C F I) : bool :=
  match leg with Fixed _ => true | Float _ => false end.

(** The 11 (legacy) or 7 (v2) features of one leg, both halves together. *)
Definition leg_key (leg : SwapLeg) : list (option Z) :=
  (_get_keys leg).1 ++ (_get_keys leg).2.

Definition leg_key_v2 (leg : SwapLeg) : list (option Z) :=
  (_get_keys_v2 leg).1 ++ (_get_keys_v2 leg).2.

(** The tuples handed to [_hasher] by [get_hash] and [get_hash_v2]. *)
Definition hashed_tuple (swap_proto : InterestRateSwap) : list (option Z) :=
  (_get_legs_hash_key (pay_leg swap_proto) (receive_leg swap_proto)).2
  ++ [Some (currency swap_proto)] ++ [Some (bank_holidays swap_proto)].

Definition hashed_tuple_v2 (swap_proto : InterestRateSwap) : list (option Z) :=
  (_get_legs_hash_key_v2 (pay_leg swap_proto) (receive_leg swap_proto)).2
  ++ [Some (bank_holidays swap_proto)].

(** The structural fields of a leg: its kind, coupon and reset frequencies,
    day-count convention, business-day rule and rate-index type. *)
Inductive LegShape :=
  | FixedShape (coupon : Period) (daycount business_day : Z)
  | FloatShape (coupon reset : Period) (daycount business_day index : Z).

Definition leg_shape (leg : SwapLeg) : LegShape :=
  match leg with
  | fixed_leg l =>
      FixedShape (fixed_coupon_frequency l) (fixed_daycount_convention l)
                 (fixed_business_day_convention l)
  | floating_leg l =>
      FloatShape (floating_coupon_frequency l) (floating_reset_frequency l)
                 (floating_daycount_convention l)
                 (floating_business_day_convention l)
                 (index_type (floating_floating_rate_type l))
  end.

(** The structural fields of a swap: those of its two legs, its currency
    and its holiday calendar. *)
Record SwapShape := {
  shape_pay : LegShape;
  shape_receive : LegShape;
  shape_currency : Z;
  shape_calendar : Z }.

Definition swap_shape (swap_proto : InterestRateSwap) : SwapShape :=
  {| shape_pay := leg_shape (pay_leg swap_proto);
     shape_receive := leg_shape (receive_leg swap_proto);
     shape_currency := currency swap_proto;
     shape_calendar := bank_holidays swap_proto |}.

(** A swap entered with a floating pay leg and a fixed receive leg. *)
Definition entered_reversed (swap_proto : InterestRateSwap) : bool :=
  negb (is_fixed_proto (pay_leg swap_proto))
  && is_fixed_proto (receive_leg swap_proto).

(** The same swap with the two legs exchanged. *)
Definition mirrored (swap_proto : InterestRateSwap) : InterestRateSwap :=
  {| pay_leg := receive_leg swap_proto;
     receive_leg := pay_leg swap_proto;
     effective_date := effective_date swap_proto;
     maturity_date := maturity_date swap_proto;
     currency := currency swap_proto;
     bank_holidays := bank_holidays swap_proto;
     metadata := metadata swap_proto |}.

(** The structural fields with the legs in canonical order. *)
Definition canonical_shape (swap_proto : InterestRateSwap) : SwapShape :=
  if entered_reversed swap_proto then swap_shape (mirrored swap_proto)
  else swap_shape swap_proto.

(** What is left of the structural fields in the v2 key: the kind of each
    leg, the normalised frequency types, day-count convention and
    business-day rule, and the calendar of the swap. *)
Inductive LegShapeV2 :=
  | FixedShapeV2 (coupon_type daycount business_day : Z)
  | FloatShapeV2 (coupon_type reset_type daycount business_day : Z).

Definition leg_shape_v2 (leg : SwapLeg) : LegShapeV2 :=
  match leg with
  | fixed_leg l =>
      FixedShapeV2
        (_frequency_and_multiplier (freq_type (fixed_coupon_frequency l))).1
        (fixed_daycount_convention l) (fixed_business_day_convention l)
  | floating_leg l =>
      FloatShapeV2
        (_frequency_and_multiplier (freq_type (floating_coupon_frequency l))).1
        (_frequency_and_multiplier (freq_type (floating_reset_frequency l))).1
        (floating_daycount_convention l) (floating_business_day_convention l)
  end.

Definition canonical_shape_v2 (swap_proto : InterestRateSwap)
    : LegShapeV2 * LegShapeV2 * Z :=
  if entered_reversed swap_proto then
    (leg_shape_v2 (receive_leg swap_proto), leg_shape_v2 (pay_leg swap_proto),
     bank_holidays swap_proto)
  else
    (leg_shape_v2 (pay_leg swap_proto), leg_shape_v2 (receive_leg swap_proto),
     bank_holidays swap_proto).

(** Two texts on which the digest does not collide. *)
Definition no_collision (text_1 text_2 : string) : Prop :=
  md5_hexdigest text_1 = md5_hexdigest text_2 → text_1 = text_2.

End Vocabulary.

(** The per-swap sequences of a leg descriptor, one function per field; a
    field that a kind of leg does not have is the empty sequence. *)
Definition notional_of `{Collaborators} {C F I} (leg : CouponSpecs C F I)
    : list float :=
  match leg with
  | Fixed l => fx_notional_amount l
  | Float l => fl_notional_amount l
  end.

Definition settlement_days_of `{Collaborators} {C F I}
    (leg : CouponSpecs C F I) : list Z :=
  match leg with
  | Fixed l => fx_settlement_days l
  | Float l => fl_settlement_days l
  end.

Definition fixed_rate_of `{Collaborators} {C F I} (leg : CouponSpecs C F I)
    : list float :=
  match leg with
  | Fixed l => fx_fixed_rate l
  | Float _ => []
  end.

Definition spread_of `{Collaborators} {C F I} (leg : CouponSpecs C F I)
    : list float :=
  match leg with
  | Fixed _ => []
  | Float l => fl_spread l
  end.

Section Columns.
Context `{Collaborators}.

Definition index_names_of (leg : Leg) : list RateIndexName :=
  match leg with
  | Fixed _ => []
  | Float l => ri_name (fl_floating_rate_type l)
  end.

Definition index_sources_of (leg : Leg) : list RateIndexSource :=
  match leg with
  | Fixed _ => []
  | Float l => ri_source (fl_floating_rate_type l)
  end.

Definition currencies_of (leg : LegV2) : list Currency :=
  match leg with
  | Fixed l => fx_currency l
  | Float l => fl_currency l
  end.

Definition coupon_amounts_of (leg : LegV2) : list Z :=
  match leg with
  | Fixed l => (fx_coupon_frequency l).2
  | Float l => (fl_coupon_frequency l).2
  end.

Definition reset_amounts_of (leg : LegV2) : list Z :=
  match leg with
  | Fixed _ => []
  | Float l => (fl_reset_frequency l).2
  end.

Definition rate_indices_of (leg : LegV2) : list RateIndex :=
  match leg with
  | Fixed _ => []
  | Float l => fl_floating_rate_type l
  end.

(** All the per-swap sequences of a leg descriptor have length [n]. *)
Definition leg_lengths (n : nat) (leg : Leg) : Prop :=
  match leg with
  | Fixed l =>
      length (fx_notional_amount l) = n
      ∧ length (fx_fixed_rate l) = n
      ∧ length (fx_settlement_days l) = n
  | Float l =>
      length (fl_notional_amount l) = n
      ∧ length (fl_spread l) = n
      ∧ length (fl_settlement_days l) = n
      ∧ length (ri_name (fl_floating_rate_type l)) = n
      ∧ length (ri_source (fl_floating_rate_type l)) = n
  end.

(** In the v2 pipeline a floating leg holds one rate index per swap, each
    with one name and one source. *)
Definition one_name_one_source (index : RateIndex) : Prop :=
  length (ri_name index) = 1 ∧ length (ri_source index) = 1.

Definition leg_lengths_v2 (n : nat) (leg : LegV2) : Prop :=
  match leg with
  | Fixed l =>
      length (fx_notional_amount l) = n
      ∧ length (fx_fixed_rate l) = n
      ∧ length (fx_settlement_days l) = n
      ∧ length (fx_currency l) = n
      ∧ length (fx_coupon_frequency l).2 = n
  | Float l =>
      length (fl_notional_amount l) = n
      ∧ length (fl_spread l) = n
      ∧ length (fl_settlement_days l) = n
      ∧ length (fl_currency l) = n
      ∧ length (fl_coupon_frequency l).2 = n
      ∧ length (fl_reset_frequency l).2 = n
      ∧ length (fl_floating_rate_type l) = n
      ∧ Forall one_name_one_source (fl_floating_rate_type l)
  end.

(** The swaps of a list that hash to [h], in the order of the list. *)
Definition members (hash : InterestRateSwap → string * bool) (h : string)
    (proto_list : list InterestRateSwap) : list InterestRateSwap :=
  filter (λ swap_proto, (hash swap_proto).1 = h) proto_list.

(** A field [col] of the leg descriptors that a successful merge extends by
    the entries of the new leg. *)
Definition merged_by {L A : Type} (update : L → L → L * option Exception)
    (col : L → list A) : Prop :=
  ∀ current_leg leg merged,
    update current_leg leg = (merged, None) →
    col merged = col current_leg ++ col leg.

Definition name_and_type (swap_proto : InterestRateSwap) : string * string :=
  (metadata_id (metadata swap_proto),
   metadata_instrument_type (metadata swap_proto)).

(** The bucket made of one swap whose legs, once in their roles, are [pay]
    and [receive]. *)
Definition single_batch {L : Type} (config : option InterestRateSwapConfig)
    (swap_proto : InterestRateSwap) (pay receive : L) : Batch L :=
  {| start_date := [date_list (effective_date swap_proto)];
     maturity_date_list := [date_list (maturity_date swap_proto)];
     batch_pay_leg := pay;
     batch_receive_leg := receive;
     swap_config := config;
     batch_names := [name_and_type swap_proto] |}.

End Columns.

Section LoopVocabulary.
Context `{Collaborators} {C F I : Type}.
Local Abbreviation L := (CouponSpecs C F I).
Variable hash : InterestRateSwap → string * bool.
Variable materialise : SwapLeg → result L.
Variable update : L → L → L * option Exception.
Variable config : option InterestRateSwapConfig.

(** The legs of a swap as the loop merges them: materialised, and exchanged
    and negated when the hash says so. *)
Definition legs_of (swap_proto : InterestRateSwap) : result (L * L) :=
  shuffled_legs materialise swap_proto (hash swap_proto).2.

(** [legs] are the pairs of legs of [swaps], swap by swap: every swap of
    the list was materialised. *)
Definition materialised (swaps : list InterestRateSwap) (legs : list (L * L))
    : Prop :=
  Forall2 (λ swap_proto pair, legs_of swap_proto = Ok pair) swaps legs.

(** The content of the bucket [h] after the swaps [seen]: every list and
    every merged field holds the entries of the members in their order. *)
Definition bucket_content (h : string) (seen : list InterestRateSwap)
    (batch : Batch L) : Prop :=
  let merged := members hash h seen in
  start_date batch = (λ s, date_list (effective_date s)) <$> merged
  ∧ maturity_date_list batch = (λ s, date_list (maturity_date s)) <$> merged
  ∧ batch_names batch = name_and_type <$> merged
  ∧ swap_config batch = config
  ∧ ∃ legs,
      materialised merged legs
      ∧ ∀ (A : Type) (col : L → list A),
          merged_by update col →
          col (batch_pay_leg batch) = legs ≫= (λ pair, col pair.1)
          ∧ col (batch_receive_leg batch) = legs ≫= (λ pair, col pair.2).

Definition buckets_content (seen : list InterestRateSwap)
    (d : gmap string (Batch L)) : Prop :=
  ∀ h, match d !! h with
       | Some batch => members hash h seen ≠ [] ∧ bucket_content h seen batch
       | None => members hash h seen = []
       end.

(** Every bucket holds as many dates and names as its legs hold entries,
    for a notion [sized] of a leg holding [n] entries per field. *)
Definition bucket_sized (sized : nat → L → Prop) (batch : Batch L) : Prop :=
  let n := length (start_date batch) in
  length (maturity_date_list batch) = n
  ∧ length (batch_names batch) = n
  ∧ sized n (batch_pay_leg batch)
  ∧ sized n (batch_receive_leg batch).

End LoopVocabulary.

(** Texts made of decimal digits and the minus sign only. *)
Definition numeral_char (c : ascii) : bool :=
  bool_decide (c ∈ ["0"; "1"; "2"; "3"; "4"; "5"; "6"; "7"; "8"; "9"; "-"]%char).

Fixpoint numeral (text : string) : bool :=
  match text with
  | EmptyString => true
  | String c rest => numeral_char c && numeral rest
  end.

(** Texts without a comma. *)
Fixpoint comma_free (text : string) : bool :=
  match text with
  | EmptyString => true
  | String c rest => negb (bool_decide (c = ","%char)) && comma_free rest
  end.

(** What follows an element in the output of [json.dumps]: nothing, or a
    separator and more. *)
Definition tail_text (text : string) : Prop :=
  text = EmptyString ∨ ∃ rest, text = String "," rest.

(** What [", ".join] writes after the first element. *)
Definition join_rest (texts : list string) : string :=
  match texts with
  | [] => EmptyString
  | _ => ", " +:+ String.concat ", " texts
  end.

(** ** Further vocabulary *)

Section FurtherVocabulary.
Context `{Collaborators}.

(** A list of swaps on whose serialised key tuples the digest never
    collides, for the tuple function [tuple] of one of the two pipelines. *)
Definition collision_free (tuple : InterestRateSwap → list (option Z))
    (proto_list : list InterestRateSwap) : Prop :=
  ∀ swap_1 swap_2,
    swap_1 ∈ proto_list → swap_2 ∈ proto_list →
    no_collision (json_dumps (tuple swap_1)) (json_dumps (tuple swap_2)).

(** What [update_leg] compares between two legs: the kind and, for a
    floating leg, the type of the rate index. *)
Definition leg_tag (leg : Leg) : option RateIndexType :=
  match leg with
  | Fixed _ => None
  | Float l => Some (ri_type (fl_floating_rate_type l))
  end.

Definition shape_tag (shape : LegShape) : option (result RateIndexType) :=
  match shape with
  | FixedShape _ _ _ => None
  | FloatShape _ _ _ _ index => Some (rate_index_type_from_proto index)
  end.

(** Both legs of every swap of the list can be materialised by
    [materialise]: every enum code they carry is known. *)
Definition all_materialise {L : Type} (materialise : SwapLeg → result L)
    (proto_list : list InterestRateSwap) : Prop :=
  ∀ swap_proto,
    swap_proto ∈ proto_list →
    is_Ok (materialise (pay_leg swap_proto))
    ∧ is_Ok (materialise (receive_leg swap_proto)).

Definition shape_is_fixed (shape : LegShapeV2) : bool :=
  match shape with
  | FixedShapeV2 _ _ _ => true
  | FloatShapeV2 _ _ _ _ => false
  end.

(** The v2 features of a leg, read off its structural fields. *)
Definition v2_of_shape (shape : LegShape) : LegShapeV2 :=
  match shape with
  | FixedShape coupon daycount business_day =>
      FixedShapeV2 (_frequency_and_multiplier (freq_type coupon)).1
                   daycount business_day
  | FloatShape coupon reset daycount business_day _ =>
      FloatShapeV2 (_frequency_and_multiplier (freq_type coupon)).1
                   (_frequency_and_multiplier (freq_type reset)).1
                   daycount business_day
  end.

(** The group of the swaps that hash to [h]: absent when there is none. *)
Definition group_of (hash : InterestRateSwap → string * bool) (h : string)
    (proto_list : list InterestRateSwap) : option (list InterestRateSwap) :=
  match members hash h proto_list with
  | [] => None
  | group => Some group
  end.

End FurtherVocabulary.

Section ProgressVocabulary.
Context `{Collaborators} {C F I T : Type}.
Local Abbreviation L := (CouponSpecs C F I).
Variable hash : InterestRateSwap → string * bool.
Variable materialise : SwapLeg → result L.
Variable tag : L → T.

(** Every bucket holds legs tagged like those of one of the swaps seen
    that has the digest of the bucket. *)
Definition buckets_tagged (seen : list InterestRateSwap)
    (d : gmap string (Batch L)) : Prop :=
  ∀ h batch, d !! h = Some batch →
    ∃ s pair, s ∈ seen ∧ (hash s).1 = h
              ∧ legs_of hash materialise s = Ok pair
              ∧ tag (batch_pay_leg batch) = tag pair.1
              ∧ tag (batch_receive_leg batch) = tag pair.2.

End ProgressVocabulary.

(** The kinds of the two legs once in their final roles: the pay leg is
    fixed as soon as one leg of the swap is, the receive leg only when both
    are. *)
Definition canonical_kinds `{Collaborators} (swap_proto : InterestRateSwap)
    : bool * bool :=
  (is_fixed_proto (pay_leg swap_proto) || is_fixed_proto (receive_leg swap_proto),
   is_fixed_proto (pay_leg swap_proto) && is_fixed_proto (receive_leg swap_proto)).

(** The message of the exception [update_rate_index] raises. *)
Definition can_not_join `{Collaborators} (current_index index : RateIndex)
    : Exception :=
  ValueError ("Can not join " +:+ str_RateIndexType (ri_type current_index)
              +:+ " and " +:+ str_RateIndexType (ri_type index)).

(** The number of entries held by the values of a dict. *)
Definition entries {A : Type} (size : A → nat) (d : gmap string A) : nat :=
  sum_list_with (λ entry, size entry.2) (map_to_list d).

(** The fields of a leg descriptor that hold one value for the whole batch:
    the conventions and the calendar, and then the currency and the
    frequencies (legacy) or the types of the frequencies (v2). *)
Definition leg_conventions `{Collaborators} {C F I} (leg : CouponSpecs C F I)
    : BusinessDayConvention * DayCountConvention * HolidayCalendar :=
  match leg with
  | Fixed l => (fx_businessday_rule l, fx_daycount_convention l, fx_calendar l)
  | Float l => (fl_businessday_rule l, fl_daycount_convention l, fl_calendar l)
  end.

Definition leg_currency_and_frequencies `{Collaborators} (leg : Leg)
    : Currency * Period * option Period :=
  match leg with
  | Fixed l => (fx_currency l, fx_coupon_frequency l, None)
  | Float l =>
      (fl_currency l, fl_coupon_frequency l, Some (fl_reset_frequency l))
  end.

Definition leg_frequency_types `{Collaborators} (leg : LegV2)
    : Z * option Z :=
  match leg with
  | Fixed l => ((fx_coupon_frequency l).1, None)
  | Float l => ((fl_coupon_frequency l).1, Some (fl_reset_frequency l).1)
  end.

Section HeadVocabulary.
Context `{Collaborators} {C F I : Type}.
Local Abbreviation L := (CouponSpecs C F I).
Variable hash : InterestRateSwap → string * bool.
Variable materialise : SwapLeg → result L.
Variable update : L → L → L * option Exception.

(** A field [f] of the leg descriptors that a successful merge leaves as
    it is in the current leg. *)
Definition kept_by {A : Type} (f : L → A) : Prop :=
  ∀ current_leg leg merged,
    update current_leg leg = (merged, None) → f merged = f current_leg.

(** The kept fields of the bucket [h] are those of its first member. *)
Definition bucket_head (h : string) (seen : list InterestRateSwap)
    (batch : Batch L) : Prop :=
  ∃ first rest pair,
    members hash h seen = first :: rest
    ∧ legs_of hash materialise first = Ok pair
    ∧ ∀ (A : Type) (f : L → A),
        kept_by f →
        f (batch_pay_leg batch) = f pair.1
        ∧ f (batch_receive_leg batch) = f pair.2.

End HeadVocabulary.

(** ** Sample data *)

(** A choice of collaborators on which the model runs: decimals are doubles
    already, every enum is its proto code and every code is known, and the
    digest is the identity, which has no collision. *)
Definition sample_collaborators : Collaborators := {|
  Decimal := float;
  decimal_to_double := λ d, d;
  Currency := Z;
  currency_from_proto_value := λ c, Ok c;
  BusinessDayConvention := Z;
  convention_from_proto_value := λ c, Ok c;
  DayCountConvention := Z;
  daycount_from_proto_value := λ c, Ok c;
  HolidayCalendar := Z;
  holiday_from_proto_value := λ c, Ok c;
  RateIndexType := Z;
  RateIndexType_eq_dec := _;
  RateIndexName := Z;
  RateIndexSource := string;
  rate_index_type_from_proto := λ c, Ok c;
  rate_index_name_from_proto := λ c, Ok c;
  rate_index_source_from_proto := λ c, Ok c;
  str_RateIndexType := pretty;
  md5_hexdigest := λ text, text;
  InterestRateSwapConfig := unit |}.

Section Samples.
#[local] Existing Instance sample_collaborators.

Definition quarterly : Period := {| freq_type := 3; freq_amount := 3 |}.

(** A fixed leg: quarterly coupons, day-count code 1, business-day code 4. *)
Definition sample_fixed_leg (notional : float) : FixedLeg := {|
  fixed_currency := 840;
  fixed_coupon_frequency := quarterly;
  fixed_notional_amount := notional;
  fixed_fixed_rate := 0.03125%float;
  fixed_settlement_days := 2;
  fixed_business_day_convention := 4;
  fixed_daycount_convention := 1;
  fixed_bank_holidays := 1 |}.

(** A floating leg on the same schedule, rate index of type [index]. *)
Definition sample_floating_leg (notional : float) (index : Z) : FloatingLeg := {|
  floating_currency := 840;
  floating_coupon_frequency := quarterly;
  floating_reset_frequency := quarterly;
  floating_notional_amount := notional;
  floating_floating_rate_type :=
    {| index_type := index; index_name := 7; index_source := "BBG" |};
  floating_settlement_days := 2;
  floating_business_day_convention := 4;
  floating_daycount_convention := 1;
  floating_spread := 0.001953125%float;
  floating_bank_holidays := 1 |}.

Definition sample_swap (name : string) (pay receive : SwapLeg) (ccy : Z)
    : InterestRateSwap := {|
  pay_leg := pay;
  receive_leg := receive;
  effective_date := {| year := 2020; month := 2; day := 8 |};
  maturity_date := {| year := 2025; month := 2; day := 8 |};
  currency := ccy;
  bank_holidays := 1;
  metadata := {| metadata_id := name; metadata_instrument_type := "swap" |} |}.

(** Pay fixed, receive floating, notionals 1,000,000 and 2,000,000. *)
Definition swap_a : InterestRateSwap :=
  sample_swap "a" (fixed_leg (sample_fixed_leg 1000000))
              (floating_leg (sample_floating_leg 1000000 2)) 840.
Definition swap_b : InterestRateSwap :=
  sample_swap "b" (fixed_leg (sample_fixed_leg 2000000))
              (floating_leg (sample_floating_leg 2000000 2)) 840.
(** As [swap_a], in another currency. *)
Definition swap_other_currency : InterestRateSwap :=
  sample_swap "a" (fixed_leg (sample_fixed_leg 1000000))
              (floating_leg (sample_floating_leg 1000000 2)) 978.
(** Pay floating, receive fixed. *)
Definition swap_reversed : InterestRateSwap :=
  sample_swap "r" (floating_leg (sample_floating_leg 3000000 2))
              (fixed_leg (sample_fixed_leg 3000000)) 840.
(** Two floating legs whose rate indices have different types. *)
Definition swap_basis (index : Z) : InterestRateSwap :=
  sample_swap "x" (floating_leg (sample_floating_leg 1000000 index))
              (floating_leg (sample_floating_leg 1000000 index)) 840.

Definition sample_index (type name : Z) : RateIndex :=
  {| ri_type := type; ri_name := [name]; ri_source := ["BBG"] |}.

(** Three swaps of one shape, the last one entered reversed, the bucket
    they fall into under the legacy hash, and its expected content. *)
Definition sample_list : list InterestRateSwap :=
  [swap_a; swap_b; swap_reversed].

Definition sample_key : string := (get_hash swap_a).1.

Definition sample_batch : Batch Leg := {|
  start_date := [[2020; 2; 8]; [2020; 2; 8]; [2020; 2; 8]]%Z;
  maturity_date_list := [[2025; 2; 8]; [2025; 2; 8]; [2025; 2; 8]]%Z;
  batch_pay_leg := Fixed {|
    fx_currency := 840%Z;
    fx_coupon_frequency := quarterly;
    fx_notional_amount := [1000000; 2000000; -3000000]%float;
    fx_fixed_rate := [0.03125; 0.03125; 0.03125]%float;
    fx_settlement_days := [2; 2; 2]%Z;
    fx_businessday_rule := 4%Z;
    fx_daycount_convention := 1%Z;
    fx_calendar := 1%Z |};
  batch_receive_leg := Float {|
    fl_currency := 840%Z;
    fl_coupon_frequency := quarterly;
    fl_reset_frequency := quarterly;
    fl_notional_amount := [1000000; 2000000; -3000000]%float;
    fl_floating_rate_type :=
      {| ri_type := 2%Z; ri_name := [7; 7; 7]%Z;
         ri_source := ["BBG"; "BBG"; "BBG"] |};
    fl_settlement_days := [2; 2; 2]%Z;
    fl_businessday_rule := 4%Z;
    fl_daycount_convention := 1%Z;
    fl_spread := [0.001953125; 0.001953125; 0.001953125]%float;
    fl_calendar := 1%Z |};
  swap_config := None;
  batch_names := [("a", "swap"); ("b", "swap"); ("r", "swap")] |}.

(** The same three swaps under the v2 hash. *)
Definition sample_key_v2 : string := (get_hash_v2 swap_a).1.

Definition sample_batch_v2 : Batch LegV2 := {|
  start_date := [[2020; 2; 8]; [2020; 2; 8]; [2020; 2; 8]]%Z;
  maturity_date_list := [[2025; 2; 8]; [2025; 2; 8]; [2025; 2; 8]]%Z;
  batch_pay_leg := Fixed {|
    fx_currency := [840; 840; 840]%Z;
    fx_coupon_frequency := (3, [3; 3; 3])%Z;
    fx_notional_amount := [1000000; 2000000; -3000000]%float;
    fx_fixed_rate := [0.03125; 0.03125; 0.03125]%float;
    fx_settlement_days := [2; 2; 2]%Z;
    fx_businessday_rule := 4%Z;
    fx_daycount_convention := 1%Z;
    fx_calendar := 1%Z |};
  batch_receive_leg := Float {|
    fl_currency := [840; 840; 840]%Z;
    fl_coupon_frequency := (3, [3; 3; 3])%Z;
    fl_reset_frequency := (3, [3; 3; 3])%Z;
    fl_notional_amount := [1000000; 2000000; -3000000]%float;
    fl_floating_rate_type :=
      [sample_index 2 7; sample_index 2 7; sample_index 2 7];
    fl_settlement_days := [2; 2; 2]%Z;
    fl_businessday_rule := 4%Z;
    fl_daycount_convention := 1%Z;
    fl_spread := [0.001953125; 0.001953125; 0.001953125]%float;
    fl_calendar := 1%Z |};
  swap_config := None;
  batch_names := [("a", "swap"); ("b", "swap"); ("r", "swap")] |}.

(** Two floating-leg descriptors that differ in the type of their rate
    index. *)
Definition sample_float_specs (index : Z)
    : FloatCouponSpecs Currency Period RateIndex := {|
  fl_currency := 840%Z;
  fl_coupon_frequency := quarterly;
  fl_reset_frequency := quarterly;
  fl_notional_amount := [1000000%float];
  fl_floating_rate_type :=
    {| ri_type := index; ri_name := [7%Z]; ri_source := ["BBG"] |};
  fl_settlement_days := [2%Z];
  fl_businessday_rule := 4%Z;
  fl_daycount_convention := 1%Z;
  fl_spread := [0.001953125%float];
  fl_calendar := 1%Z |}.

End Samples.

(** Collaborators whose digest sends every text to the same string: every
    two swaps collide. *)
Definition colliding_collaborators : Collaborators := {|
  Decimal := float;
  decimal_to_double := λ d, d;
  Currency := Z;
  currency_from_proto_value := λ c, Ok c;
  BusinessDayConvention := Z;
  convention_from_proto_value := λ c, Ok c;
  DayCountConvention := Z;
  daycount_from_proto_value := λ c, Ok c;
  HolidayCalendar := Z;
  holiday_from_proto_value := λ c, Ok c;
  RateIndexType := Z;
  RateIndexType_eq_dec := _;
  RateIndexName := Z;
  RateIndexSource := string;
  rate_index_type_from_proto := λ c, Ok c;
  rate_index_name_from_proto := λ c, Ok c;
  rate_index_source_from_proto := λ c, Ok c;
  str_RateIndexType := pretty;
  md5_hexdigest := λ _, "0";
  InterestRateSwapConfig := unit |}.

Section CollidingSamples.
#[local] Existing Instance colliding_collaborators.

Definition colliding_fixed_leg : SwapLeg :=
  fixed_leg {|
    fixed_currency := 840;
    fixed_coupon_frequency := quarterly;
    fixed_notional_amount := 1000000%float;
    fixed_fixed_rate := 0.03125%float;
    fixed_settlement_days := 2;
    fixed_business_day_convention := 4;
    fixed_daycount_convention := 1;
    fixed_bank_holidays := 1 |}.

Definition colliding_floating_leg : SwapLeg :=
  floating_leg {|
    floating_currency := 840;
    floating_coupon_frequency := quarterly;
    floating_reset_frequency := quarterly;
    floating_notional_amount := 1000000%float;
    floating_floating_rate_type :=
      {| index_type := 2; index_name := 7; index_source := "BBG" |};
    floating_settlement_days := 2;
    floating_business_day_convention := 4;
    floating_daycount_convention := 1;
    floating_spread := 0.001953125%float;
    floating_bank_holidays := 1 |}.

Definition colliding_swap (pay receive : SwapLeg) : InterestRateSwap := {|
  pay_leg := pay;
  receive_leg := receive;
  effective_date := {| year := 2020; month := 2; day := 8 |};
  maturity_date := {| year := 2025; month := 2; day := 8 |};
  currency := 840;
  bank_holidays := 1;
  metadata := {| metadata_id := "c"; metadata_instrument_type := "swap" |} |}.

(** A fixed-for-floating swap and a floating-for-floating swap. *)
Definition colliding_vanilla : InterestRateSwap :=
  colliding_swap colliding_fixed_leg colliding_floating_leg.
Definition colliding_basis : InterestRateSwap :=
  colliding_swap colliding_floating_leg colliding_floating_leg.

End CollidingSamples.

(** * Properties *)

(** ** Frequency normaliser *)

(** C9. The frequency normaliser is a total function: it sends the legacy
    code 5 to the canonical code 3, returns every other code as it is, and
    its multiplier is always 1. The fixed-leg key of the v2 pipeline, which
    repeats the test inline, and the floating-leg key, which calls the
    normaliser, carry the normalised code, so that the codes 5 and 3 give
    the same key. *)
Theorem frequency_normalizer_contract `{Collaborators}
    (code : Z) (fixed : FixedLeg) (floating : FloatingLeg) :
  _frequency_and_multiplier 5 = (3%Z, 1%Z)
  ∧ _frequency_and_multiplier code
    = (if decide (code = 5%Z) then 3%Z else code, 1%Z)
  ∧ _frequency_and_multiplier 5 = _frequency_and_multiplier 3
  ∧ _fixed_leg_key_v2 fixed
    = [Some (_frequency_and_multiplier
               (freq_type (fixed_coupon_frequency fixed))).1;
       Some (fixed_daycount_convention fixed);
       Some (fixed_business_day_convention fixed)]
  ∧ _floating_leg_key_v2 floating
    = [Some (_frequency_and_multiplier
               (freq_type (floating_coupon_frequency floating))).1;
       Some (_frequency_and_multiplier
               (freq_type (floating_reset_frequency floating))).1;
       Some (floating_daycount_convention floating);
       Some (floating_business_day_convention floating)].
Proof.
  repeat split.
Qed.

(** ** Swap canonicaliser *)

Section Canonicalizer.
Context `{Collaborators}.

Lemma first_is_None_keys leg :
  first_is_None (_get_keys leg).1 = negb (is_fixed_proto leg).
Proof. by destruct leg. Qed.

Lemma first_is_None_keys_v2 leg :
  first_is_None (_get_keys_v2 leg).1 = negb (is_fixed_proto leg).
Proof. by destruct leg. Qed.

Lemma legs_hash_key_with_unfold get_keys leg_1 leg_2 :
  legs_hash_key_with get_keys leg_1 leg_2
  = if first_is_None (get_keys leg_1).1
       && negb (first_is_None (get_keys leg_2).1)
    then (true, ((get_keys leg_2).1 ++ (get_keys leg_2).2)
                ++ ((get_keys leg_1).1 ++ (get_keys leg_1).2))
    else (false, ((get_keys leg_1).1 ++ (get_keys leg_1).2)
                 ++ ((get_keys leg_2).1 ++ (get_keys leg_2).2)).
Proof.
  unfold legs_hash_key_with.
  destruct (get_keys leg_1) as [p1 p2], (get_keys leg_2) as [r1 r2]; simpl.
  by destruct (first_is_None p1 && negb (first_is_None r1)).
Qed.

Lemma legs_hash_key_cases leg_1 leg_2 :
  _get_legs_hash_key leg_1 leg_2
  = if negb (is_fixed_proto leg_1) && is_fixed_proto leg_2
    then (true, leg_key leg_2 ++ leg_key leg_1)
    else (false, leg_key leg_1 ++ leg_key leg_2).
Proof.
  unfold _get_legs_hash_key. rewrite legs_hash_key_with_unfold.
  by rewrite !first_is_None_keys, negb_involutive.
Qed.

Lemma legs_hash_key_v2_cases leg_1 leg_2 :
  _get_legs_hash_key_v2 leg_1 leg_2
  = if negb (is_fixed_proto leg_1) && is_fixed_proto leg_2
    then (true, leg_key_v2 leg_2 ++ leg_key_v2 leg_1)
    else (false, leg_key_v2 leg_1 ++ leg_key_v2 leg_2).
Proof.
  unfold _get_legs_hash_key_v2. rewrite legs_hash_key_with_unfold.
  by rewrite !first_is_None_keys_v2, negb_involutive.
Qed.

(** C2. Both canonicalisers return [flip = true] with the receive key
    before the pay key exactly when the pay leg is floating and the receive
    leg is fixed; for every other pair of legs, fixed-fixed and float-float
    included, they return [flip = false] with the pay key first. *)
Theorem legs_hash_key_flip_rule (leg_1 leg_2 : SwapLeg) :
  _get_legs_hash_key leg_1 leg_2
  = (if negb (is_fixed_proto leg_1) && is_fixed_proto leg_2
     then (true, leg_key leg_2 ++ leg_key leg_1)
     else (false, leg_key leg_1 ++ leg_key leg_2))
  ∧ _get_legs_hash_key_v2 leg_1 leg_2
    = (if negb (is_fixed_proto leg_1) && is_fixed_proto leg_2
       then (true, leg_key_v2 leg_2 ++ leg_key_v2 leg_1)
       else (false, leg_key_v2 leg_1 ++ leg_key_v2 leg_2)).
Proof.
  split; [apply legs_hash_key_cases|apply legs_hash_key_v2_cases].
Qed.

Lemma get_hash_unfold swap_proto :
  get_hash swap_proto
  = (_hasher (hashed_tuple swap_proto), entered_reversed swap_proto).
Proof.
  unfold get_hash, hashed_tuple, entered_reversed.
  rewrite legs_hash_key_cases. by destruct (negb _ && _).
Qed.

Lemma get_hash_v2_unfold swap_proto :
  get_hash_v2 swap_proto
  = (_hasher (hashed_tuple_v2 swap_proto), entered_reversed swap_proto).
Proof.
  unfold get_hash_v2, hashed_tuple_v2, entered_reversed.
  rewrite legs_hash_key_v2_cases. by destruct (negb _ && _).
Qed.

Lemma hashed_tuple_cases swap_proto :
  hashed_tuple swap_proto
  = (if entered_reversed swap_proto
     then leg_key (receive_leg swap_proto) ++ leg_key (pay_leg swap_proto)
     else leg_key (pay_leg swap_proto) ++ leg_key (receive_leg swap_proto))
    ++ [Some (currency swap_proto); Some (bank_holidays swap_proto)].
Proof.
  unfold hashed_tuple, entered_reversed. rewrite legs_hash_key_cases.
  by destruct (negb _ && _).
Qed.

Lemma hashed_tuple_v2_cases swap_proto :
  hashed_tuple_v2 swap_proto
  = (if entered_reversed swap_proto
     then leg_key_v2 (receive_leg swap_proto) ++ leg_key_v2 (pay_leg swap_proto)
     else leg_key_v2 (pay_leg swap_proto) ++ leg_key_v2 (receive_leg swap_proto))
    ++ [Some (bank_holidays swap_proto)].
Proof.
  unfold hashed_tuple_v2, entered_reversed. rewrite legs_hash_key_v2_cases.
  by destruct (negb _ && _).
Qed.

End Canonicalizer.

(** ** Grouping *)

(** C10. Whatever is passed as [swap_config], [group_protos] and
    [group_protos_v2] return the same grouping of the same list. *)
Theorem group_protos_ignores_config `{Collaborators}
    (proto_list : list InterestRateSwap)
    (config_1 config_2 : option InterestRateSwapConfig) :
  group_protos proto_list config_1 = group_protos proto_list config_2
  ∧ group_protos_v2 proto_list config_1 = group_protos_v2 proto_list config_2.
Proof. split; reflexivity. Qed.

(** ** Merging *)

Section Merging.
Context `{Collaborators}.

Lemma update_rate_index_cases (current_index index : RateIndex) :
  update_rate_index current_index index
  = if decide (ri_type current_index = ri_type index) then
      ({| ri_type := ri_type current_index;
          ri_name := ri_name current_index ++ ri_name index;
          ri_source := ri_source current_index ++ ri_source index |}, None)
    else
      (current_index,
       Some (ValueError
               ("Can not join " +:+ str_RateIndexType (ri_type current_index)
                +:+ " and " +:+ str_RateIndexType (ri_type index)))).
Proof.
  unfold update_rate_index.
  destruct (decide (ri_type current_index = ri_type index)) as [Heq|Hne].
  - rewrite decide_False; [done|]. by intros Hneq.
  - by rewrite decide_True.
Qed.

Lemma update_rate_index_not_type_mismatch current_index index :
  (update_rate_index current_index index).2 ≠ Some type_mismatch.
Proof.
  rewrite update_rate_index_cases.
  destruct (decide _); simpl; [done|]. unfold type_mismatch. discriminate.
Qed.

(** C7. [update_rate_index] raises exactly when the two types differ, and
    the message then names the type of the current index and the type of
    the new one, the current index being left as it was; when the types are
    equal nothing is raised and the names and the sources of the new index
    are appended to those of the current one. *)
Theorem update_rate_index_contract (current_index index : RateIndex) :
  let outcome := update_rate_index current_index index in
  if decide (ri_type current_index = ri_type index) then
    outcome.2 = None
    ∧ ri_type outcome.1 = ri_type current_index
    ∧ ri_name outcome.1 = ri_name current_index ++ ri_name index
    ∧ ri_source outcome.1 = ri_source current_index ++ ri_source index
  else
    outcome.1 = current_index
    ∧ outcome.2
      = Some (ValueError
                ("Can not join " +:+ str_RateIndexType (ri_type current_index)
                 +:+ " and " +:+ str_RateIndexType (ri_type index))).
Proof.
  simpl. rewrite update_rate_index_cases. by destruct (decide _).
Qed.

(** C6. [update_leg] and [update_leg_v2] raise the type-mismatch error
    exactly when one of the two legs is fixed and the other floating; in
    that case nothing is merged and the current leg is returned as it was.
    For two legs of one kind the type-mismatch error is never raised. *)
Theorem update_leg_type_mismatch (current_leg leg : Leg)
    (current_leg_v2 leg_v2 : LegV2) :
  (if decide (is_fixed_specs current_leg = is_fixed_specs leg)
   then (update_leg current_leg leg).2 ≠ Some type_mismatch
   else update_leg current_leg leg = (current_leg, Some type_mismatch))
  ∧ (if decide (is_fixed_specs current_leg_v2 = is_fixed_specs leg_v2)
     then (update_leg_v2 current_leg_v2 leg_v2).2 = None
     else update_leg_v2 current_leg_v2 leg_v2
          = (current_leg_v2, Some type_mismatch)).
Proof.
  split.
  - destruct current_leg as [cur|cur], leg as [new|new]; simpl; try done.
    pose proof (update_rate_index_not_type_mismatch
                  (fl_floating_rate_type cur) (fl_floating_rate_type new)) as Hidx.
    destruct (update_rate_index _ _) as [idx [e|]]; simpl in *; done.
  - by destruct current_leg_v2, leg_v2.
Qed.

End Merging.

(** ** The serialisation handed to the digest *)

Section Json.

Lemma numeral_comma_free text : numeral text → comma_free text.
Proof.
  induction text as [|c rest IH]; simpl; [done|].
  intros [Hc Hrest]%andb_True. apply andb_True. split; [|by apply IH].
  apply negb_True. intros ->%bool_decide_unpack. by vm_compute in Hc.
Qed.

Lemma pretty_N_char_numeral d : numeral_char (pretty_N_char d).
Proof. unfold pretty_N_char. by repeat case_match. Qed.

Lemma pretty_N_go_numeral x s : numeral s → numeral (pretty_N_go x s).
Proof.
  revert s. induction (N.lt_wf_0 x) as [x _ IH]. intros s Hs.
  destruct (decide (x = 0%N)) as [->|Hx].
  - by rewrite pretty_N_go_0.
  - rewrite pretty_N_go_step by lia. apply IH.
    + apply N.div_lt; lia.
    + simpl. apply andb_True. split; [apply pretty_N_char_numeral|done].
Qed.

Lemma pretty_N_go_nonempty x s : s ≠ EmptyString → pretty_N_go x s ≠ EmptyString.
Proof.
  revert s. induction (N.lt_wf_0 x) as [x _ IH]. intros s Hs.
  destruct (decide (x = 0%N)) as [->|Hx].
  - by rewrite pretty_N_go_0.
  - rewrite pretty_N_go_step by lia. apply IH; [apply N.div_lt; lia|done].
Qed.

Lemma pretty_positive_numeral (p : positive) :
  numeral (pretty p) ∧ pretty p ≠ EmptyString.
Proof.
  unfold pretty, pretty_positive, pretty, pretty_N.
  rewrite decide_False by done. split.
  - by apply pretty_N_go_numeral.
  - rewrite pretty_N_go_step by lia. by apply pretty_N_go_nonempty.
Qed.

Lemma pretty_Z_numeral (z : Z) : numeral (pretty z) ∧ pretty z ≠ EmptyString.
Proof.
  destruct z as [|p|p]; unfold pretty, pretty_Z; [done| |].
  - apply pretty_positive_numeral.
  - split; [|done]. simpl. apply pretty_positive_numeral.
Qed.

Lemma json_scalar_comma_free v : comma_free (json_scalar v).
Proof.
  destruct v as [z|]; simpl; [|done].
  apply numeral_comma_free, pretty_Z_numeral.
Qed.

Lemma json_scalar_nonempty v : json_scalar v ≠ EmptyString.
Proof. destruct v as [z|]; simpl; [apply pretty_Z_numeral|done]. Qed.

Lemma json_scalar_inj v w : json_scalar v = json_scalar w → v = w.
Proof.
  destruct v as [z|], w as [z'|]; simpl; intros Heq; [| | |done].
  - f_equal. by apply (inj pretty).
  - destruct (pretty_Z_numeral z) as [Hnum _]. by rewrite Heq in Hnum.
  - destruct (pretty_Z_numeral z') as [Hnum _]. by rewrite <- Heq in Hnum.
Qed.

(** An element ends where the first comma stands. *)
Lemma split_at_tail x y r1 r2 :
  comma_free x → comma_free y → tail_text r1 → tail_text r2 →
  x +:+ r1 = y +:+ r2 → x = y ∧ r1 = r2.
Proof.
  revert y. induction x as [|c x IH]; intros [|d y]; simpl.
  - done.
  - intros _ [Hd _]%andb_True [->|[? ->]] _ Heq; [done|].
    injection Heq as <- _. by rewrite bool_decide_eq_true_2 in Hd.
  - intros [Hc _]%andb_True _ _ [->|[? ->]] Heq; [done|].
    injection Heq as -> _. by rewrite bool_decide_eq_true_2 in Hc.
  - intros [_ Hx]%andb_True [_ Hy]%andb_True Hr1 Hr2 Heq.
    injection Heq as -> Heq.
    destruct (IH y Hx Hy Hr1 Hr2 Heq) as [-> ->]. done.
Qed.

Lemma append_empty_r text : text +:+ EmptyString = text.
Proof.
  induction text as [|c text IH]; [done|].
  change (String c (text +:+ EmptyString) = String c text). by rewrite IH.
Qed.

Lemma concat_cons text texts :
  String.concat ", " (text :: texts) = text +:+ join_rest texts.
Proof. destruct texts; simpl; [by rewrite append_empty_r|done]. Qed.

Lemma join_rest_tail texts : tail_text (join_rest texts).
Proof. destruct texts; [by left|right; by eexists]. Qed.

Lemma json_join_inj (obj_1 obj_2 : list (option Z)) :
  String.concat ", " (json_scalar <$> obj_1)
  = String.concat ", " (json_scalar <$> obj_2) → obj_1 = obj_2.
Proof.
  revert obj_2. induction obj_1 as [|v vs IH]; intros [|w ws].
  - done.
  - rewrite fmap_cons, concat_cons. simpl. intros Heq.
    destruct (json_scalar_nonempty w). by destruct (json_scalar w).
  - rewrite fmap_cons, concat_cons. simpl. intros Heq.
    destruct (json_scalar_nonempty v). by destruct (json_scalar v).
  - rewrite !fmap_cons, !concat_cons. intros Heq.
    apply split_at_tail in Heq as [Hvw Hrest];
      auto using json_scalar_comma_free, join_rest_tail.
    apply json_scalar_inj in Hvw as ->. f_equal. apply IH.
    destruct vs as [|v' vs], ws as [|w' ws]; simpl in Hrest; try done.
    by injection Hrest.
Qed.

Lemma append_bracket_inj text_1 text_2 :
  text_1 +:+ "]" = text_2 +:+ "]" → text_1 = text_2.
Proof.
  revert text_2. induction text_1 as [|c t IH]; intros [|d u]; simpl; try done.
  - intros Heq. injection Heq as _ Heq. by destruct u.
  - intros Heq. injection Heq as _ Heq. by destruct t.
  - intros Heq. injection Heq as -> Heq. f_equal. by apply IH.
Qed.

(** Different tuples are serialised to different texts. *)
Lemma json_dumps_inj obj_1 obj_2 : json_dumps obj_1 = json_dumps obj_2 → obj_1 = obj_2.
Proof.
  unfold json_dumps. simpl. intros Heq. injection Heq as Heq.
  by apply json_join_inj, append_bracket_inj.
Qed.

End Json.

(** ** Bucket membership *)

Section Membership.
Context `{Collaborators}.

Lemma leg_key_shape leg_1 leg_2 :
  leg_key leg_1 = leg_key leg_2 ↔ leg_shape leg_1 = leg_shape leg_2.
Proof.
  destruct leg_1 as [l1|l1], leg_2 as [l2|l2];
    unfold leg_key, _get_keys, _fixed_leg_key, _floating_leg_key; simpl;
    (split; [|intros [=]; congruence]).
  - destruct (fixed_coupon_frequency l1), (fixed_coupon_frequency l2).
    intros [=]. simpl in *. congruence.
  - intros [=].
  - intros [=].
  - destruct (floating_coupon_frequency l1), (floating_coupon_frequency l2),
      (floating_reset_frequency l1), (floating_reset_frequency l2).
    intros [=]. simpl in *. congruence.
Qed.

Lemma leg_key_v2_shape leg_1 leg_2 :
  leg_key_v2 leg_1 = leg_key_v2 leg_2 ↔ leg_shape_v2 leg_1 = leg_shape_v2 leg_2.
Proof.
  destruct leg_1 as [l1|l1], leg_2 as [l2|l2];
    unfold leg_key_v2, _get_keys_v2, _fixed_leg_key_v2, _floating_leg_key_v2,
      _frequency_and_multiplier; simpl;
    (split; [|intros [=]; congruence]); intros [=]; congruence.
Qed.

Lemma leg_key_length leg : length (leg_key leg) = 11.
Proof. by destruct leg. Qed.

Lemma leg_key_v2_length leg : length (leg_key_v2 leg) = 7.
Proof. by destruct leg. Qed.

(** The hashed tuples agree exactly when the canonical shapes do. *)
Lemma hashed_tuple_shape swap_1 swap_2 :
  hashed_tuple swap_1 = hashed_tuple swap_2
  ↔ canonical_shape swap_1 = canonical_shape swap_2.
Proof.
  rewrite !hashed_tuple_cases. unfold canonical_shape, swap_shape, mirrored.
  set (p1 := pay_leg swap_1). set (r1 := receive_leg swap_1).
  set (p2 := pay_leg swap_2). set (r2 := receive_leg swap_2).
  assert (∀ a b c d x y x' y',
    (leg_key a ++ leg_key b) ++ [Some x; Some y]
    = (leg_key c ++ leg_key d) ++ [Some x'; Some y']
    ↔ {| shape_pay := leg_shape a; shape_receive := leg_shape b;
         shape_currency := x; shape_calendar := y |}
      = {| shape_pay := leg_shape c; shape_receive := leg_shape d;
           shape_currency := x'; shape_calendar := y' |}) as Hgen.
  { intros a b c d x y x' y'. split.
    - intros Heq. apply app_inj_2 in Heq as [Heq [= -> ->]]; [|done].
      apply app_inj_1 in Heq as [Ha Hb]; [|by rewrite !leg_key_length].
      apply leg_key_shape in Ha, Hb. by rewrite Ha, Hb.
    - intros [= Ha Hb -> ->]. apply leg_key_shape in Ha, Hb.
      by rewrite Ha, Hb. }
  destruct (entered_reversed swap_1), (entered_reversed swap_2); simpl;
    apply Hgen.
Qed.

Lemma hashed_tuple_v2_shape swap_1 swap_2 :
  hashed_tuple_v2 swap_1 = hashed_tuple_v2 swap_2
  ↔ canonical_shape_v2 swap_1 = canonical_shape_v2 swap_2.
Proof.
  rewrite !hashed_tuple_v2_cases. unfold canonical_shape_v2.
  assert (∀ a b c d y y',
    (leg_key_v2 a ++ leg_key_v2 b) ++ [Some y]
    = (leg_key_v2 c ++ leg_key_v2 d) ++ [Some y']
    ↔ (leg_shape_v2 a, leg_shape_v2 b, y)
      = (leg_shape_v2 c, leg_shape_v2 d, y')) as Hgen.
  { intros a b c d y y'. split.
    - intros Heq. apply app_inj_2 in Heq as [Heq [= ->]]; [|done].
      apply app_inj_1 in Heq as [Ha Hb]; [|by rewrite !leg_key_v2_length].
      apply leg_key_v2_shape in Ha, Hb. by rewrite Ha, Hb.
    - intros [= Ha Hb ->]. apply leg_key_v2_shape in Ha, Hb.
      by rewrite Ha, Hb. }
  destruct (entered_reversed swap_1), (entered_reversed swap_2); apply Hgen.
Qed.

Lemma swap_shape_entered_reversed swap_1 swap_2 :
  swap_shape swap_1 = swap_shape swap_2 →
  entered_reversed swap_1 = entered_reversed swap_2.
Proof.
  unfold swap_shape, entered_reversed. intros [= Hp Hr _ _].
  destruct (pay_leg swap_1), (pay_leg swap_2); try done;
    destruct (receive_leg swap_1), (receive_leg swap_2); done.
Qed.

Lemma swap_shape_canonical swap_1 swap_2 :
  swap_shape swap_1 = swap_shape swap_2 →
  canonical_shape swap_1 = canonical_shape swap_2.
Proof.
  intros Hshape. unfold canonical_shape.
  rewrite (swap_shape_entered_reversed _ _ Hshape).
  destruct (entered_reversed swap_2); [|done].
  unfold swap_shape, mirrored in *. simpl. by injection Hshape as -> -> -> ->.
Qed.

Lemma leg_shape_v2_of_shape leg_1 leg_2 :
  leg_shape leg_1 = leg_shape leg_2 → leg_shape_v2 leg_1 = leg_shape_v2 leg_2.
Proof.
  destruct leg_1, leg_2; unfold leg_shape, leg_shape_v2; intros [=]; congruence.
Qed.

Lemma swap_shape_canonical_v2 swap_1 swap_2 :
  swap_shape swap_1 = swap_shape swap_2 →
  canonical_shape_v2 swap_1 = canonical_shape_v2 swap_2.
Proof.
  intros Hshape. unfold canonical_shape_v2.
  rewrite (swap_shape_entered_reversed _ _ Hshape).
  unfold swap_shape in Hshape. injection Hshape as Hp Hr _ ->.
  apply leg_shape_v2_of_shape in Hp, Hr. by rewrite Hp, Hr.
Qed.

(** C1, as the code has it. Two swaps with identical structural fields get
    the same bucket hash (and the same flip flag) under both versions. In
    the other direction, and provided the digest does not collide on the two
    serialised tuples: the legacy hashes are equal only if the swaps agree,
    legs taken in canonical order, on leg kinds, coupon and reset
    frequencies, day-count convention, business-day rule, rate-index type,
    currency and calendar; the v2 hashes are equal only if the swaps agree,
    legs taken in canonical order, on leg kinds, normalised frequency types,
    day-count convention, business-day rule and calendar. *)
Theorem bucket_hash_by_shape (swap_1 swap_2 : InterestRateSwap) :
  (swap_shape swap_1 = swap_shape swap_2 →
   get_hash swap_1 = get_hash swap_2 ∧ get_hash_v2 swap_1 = get_hash_v2 swap_2)
  ∧ (no_collision (json_dumps (hashed_tuple swap_1))
                  (json_dumps (hashed_tuple swap_2)) →
     (get_hash swap_1).1 = (get_hash swap_2).1
     ↔ canonical_shape swap_1 = canonical_shape swap_2)
  ∧ (no_collision (json_dumps (hashed_tuple_v2 swap_1))
                  (json_dumps (hashed_tuple_v2 swap_2)) →
     (get_hash_v2 swap_1).1 = (get_hash_v2 swap_2).1
     ↔ canonical_shape_v2 swap_1 = canonical_shape_v2 swap_2).
Proof.
  rewrite !get_hash_unfold, !get_hash_v2_unfold. simpl.
  split; [|split].
  - intros Hshape. rewrite (swap_shape_entered_reversed _ _ Hshape).
    apply swap_shape_canonical in Hshape as Hv1.
    apply swap_shape_canonical_v2 in Hshape as Hv2.
    apply hashed_tuple_shape in Hv1. apply hashed_tuple_v2_shape in Hv2.
    by rewrite Hv1, Hv2.
  - intros Hfree. rewrite <- hashed_tuple_shape. unfold _hasher. split.
    + intros Heq. by apply json_dumps_inj, Hfree.
    + by intros ->.
  - intros Hfree_v2. rewrite <- hashed_tuple_v2_shape. unfold _hasher. split.
    + intros Heq. by apply json_dumps_inj, Hfree_v2.
    + by intros ->.
Qed.

End Membership.

(** ** The accumulation loop *)

Section Loop.
Context `{Collaborators} {C F I : Type}.
Local Abbreviation L := (CouponSpecs C F I).
Variable hash : InterestRateSwap → string * bool.
Variable materialise : SwapLeg → result L.
Variable update : L → L → L * option Exception.
Variable config : option InterestRateSwapConfig.

Lemma prepare_loop_invariant
    (P : list InterestRateSwap → gmap string (Batch L) → Prop) :
  (∀ seen d swap_proto d',
     P seen d →
     prepare_step hash materialise update config d swap_proto = Ok d' →
     P (seen ++ [swap_proto]) d') →
  ∀ proto_list seen d d',
    P seen d →
    prepare_loop hash materialise update config d proto_list = Ok d' →
    P (seen ++ proto_list) d'.
Proof.
  intros Hstep proto_list.
  induction proto_list as [|swap_proto rest IH]; intros seen d d' HP; simpl.
  - intros [= <-]. by rewrite app_nil_r.
  - destruct (prepare_step _ _ _ _ d swap_proto) as [d1|e] eqn:Hd1; [|done].
    intros Hrest.
    replace (seen ++ swap_proto :: rest) with ((seen ++ [swap_proto]) ++ rest)
      by (by rewrite <- app_assoc).
    eapply IH; [|done]. by eapply Hstep.
Qed.

Lemma shuffled_legs_cases swap_proto flip_legs :
  shuffled_legs materialise swap_proto flip_legs
  = match materialise (pay_leg swap_proto) with
    | Raise e => Raise e
    | Ok pay =>
        match materialise (receive_leg swap_proto) with
        | Raise e => Raise e
        | Ok receive =>
            Ok (if flip_legs
                then (negate_notional receive, negate_notional pay)
                else (pay, receive))
        end
    end.
Proof.
  unfold shuffled_legs.
  destruct (materialise (pay_leg swap_proto)) as [pay|e]; [|done]. simpl.
  destruct (materialise (receive_leg swap_proto)) as [receive|e]; [|done].
  simpl. by destruct flip_legs.
Qed.

(** What one iteration does, said without the local names of the source. *)
Lemma prepare_step_cases d swap_proto :
  prepare_step hash materialise update config d swap_proto
  = match legs_of hash materialise swap_proto with
    | Raise e => Raise e
    | Ok two =>
        let h := (hash swap_proto).1 in
        match d !! h with
        | Some batch =>
            match update (batch_pay_leg batch) two.1 with
            | (_, Some e) => Raise e
            | (current_pay_leg, None) =>
                match update (batch_receive_leg batch) two.2 with
                | (_, Some e) => Raise e
                | (current_receive_leg, None) =>
                    Ok (<[h := {|
                          start_date :=
                            start_date batch
                            ++ [date_list (effective_date swap_proto)];
                          maturity_date_list :=
                            maturity_date_list batch
                            ++ [date_list (maturity_date swap_proto)];
                          batch_pay_leg := current_pay_leg;
                          batch_receive_leg := current_receive_leg;
                          swap_config := swap_config batch;
                          batch_names :=
                            batch_names batch ++ [name_and_type swap_proto]
                        |}]> d)
                end
            end
        | None => Ok (<[h := single_batch config swap_proto two.1 two.2]> d)
        end
    end.
Proof.
  unfold prepare_step, legs_of, single_batch, name_and_type.
  destruct (hash swap_proto) as [h flip_legs]; simpl.
  destruct (shuffled_legs materialise swap_proto flip_legs)
    as [[pay receive]|e]; [|done].
  simpl. destruct (d !! h) as [batch|]; [|done].
  destruct (update (batch_pay_leg batch) pay) as [cp [e|]]; [done|].
  by destruct (update (batch_receive_leg batch) receive) as [cr [e|]].
Qed.

Lemma members_snoc h seen swap_proto :
  members hash h (seen ++ [swap_proto])
  = members hash h seen
    ++ (if decide ((hash swap_proto).1 = h) then [swap_proto] else []).
Proof.
  unfold members. by rewrite filter_app.
Qed.

Lemma materialised_snoc swaps legs swap_proto two :
  materialised hash materialise swaps legs →
  legs_of hash materialise swap_proto = Ok two →
  materialised hash materialise (swaps ++ [swap_proto]) (legs ++ [two]).
Proof.
  intros Hlegs Hpair. apply Forall2_app; [done|]. by apply Forall2_cons.
Qed.

Lemma buckets_content_step seen d swap_proto d' :
  buckets_content hash materialise update config seen d →
  prepare_step hash materialise update config d swap_proto = Ok d' →
  buckets_content hash materialise update config (seen ++ [swap_proto]) d'.
Proof.
  intros Hinv. rewrite prepare_step_cases.
  destruct (legs_of hash materialise swap_proto) as [two|e] eqn:Hpair;
    [|done].
  simpl. pose proof (Hinv (hash swap_proto).1) as Hhs.
  destruct (d !! (hash swap_proto).1) as [batch|] eqn:Hlook.
  - destruct (update (batch_pay_leg batch) _) as [cp [e|]] eqn:Hpay; [done|].
    destruct (update (batch_receive_leg batch) _) as [cr [e|]] eqn:Hrecv;
      [done|].
    intros [= <-] h. pose proof (Hinv h) as Hh.
    destruct (decide ((hash swap_proto).1 = h)) as [<-|Hne].
    + rewrite lookup_insert_eq.
      destruct Hhs as [Hsome (Hs & Hm & Hn & Hc & legs & Hlegs & Hcol)].
      split.
      { rewrite members_snoc, decide_True by done.
        by destruct (members _ _ _). }
      unfold bucket_content. rewrite members_snoc, decide_True by done.
      simpl. rewrite !fmap_app, Hs, Hm, Hn.
      do 4 (split; [done|]). exists (legs ++ [two]).
      split; [by apply materialised_snoc|].
      intros A col Hmerged.
      rewrite !bind_app. simpl. rewrite !app_nil_r.
      rewrite (Hmerged _ _ _ Hpay), (Hmerged _ _ _ Hrecv).
      by destruct (Hcol A col Hmerged) as [-> ->].
    + rewrite lookup_insert_ne by done.
      rewrite members_snoc, decide_False, app_nil_r by done.
      destruct (d !! h); [|done]. destruct Hh as [? Hh]. split; [done|].
      unfold bucket_content in *.
      by rewrite members_snoc, decide_False, app_nil_r by done.
  - intros [= <-] h. pose proof (Hinv h) as Hh.
    destruct (decide ((hash swap_proto).1 = h)) as [<-|Hne].
    + rewrite lookup_insert_eq. split.
      { rewrite members_snoc, decide_True by done.
        by destruct (members _ _ _). }
      unfold bucket_content. rewrite members_snoc, decide_True, Hhs by done.
      simpl. do 4 (split; [done|]). exists [two].
      split; [by apply Forall2_cons|].
      intros A col _. simpl. by rewrite !app_nil_r.
    + rewrite lookup_insert_ne by done.
      rewrite members_snoc, decide_False, app_nil_r by done.
      destruct (d !! h); [|done]. destruct Hh as [? Hh]. split; [done|].
      unfold bucket_content in *.
      by rewrite members_snoc, decide_False, app_nil_r by done.
Qed.

(** After a run of the loop that raised nothing, every bucket holds the
    entries of its members, in the order of the list. *)
Lemma prepare_loop_content proto_list d :
  prepare_loop hash materialise update config ∅ proto_list = Ok d →
  buckets_content hash materialise update config proto_list d.
Proof.
  intros Hrun.
  apply (prepare_loop_invariant
           (buckets_content hash materialise update config)
           buckets_content_step proto_list [] ∅ d); [|done].
  intros h. by rewrite lookup_empty.
Qed.

Lemma prepare_loop_singleton swap_proto two :
  legs_of hash materialise swap_proto = Ok two →
  prepare_loop hash materialise update config ∅ [swap_proto]
  = Ok {[ (hash swap_proto).1 :=
            single_batch config swap_proto two.1 two.2 ]}.
Proof.
  intros Hpair. simpl. rewrite prepare_step_cases, Hpair. simpl.
  rewrite lookup_empty. by rewrite insert_empty.
Qed.

Lemma prepare_loop_singleton_raises swap_proto e :
  legs_of hash materialise swap_proto = Raise e →
  prepare_loop hash materialise update config ∅ [swap_proto] = Raise e.
Proof. intros Hpair. simpl. by rewrite prepare_step_cases, Hpair. Qed.

Section Sized.
Variable sized : nat → L → Prop.
Hypothesis sized_materialise :
  ∀ leg_proto leg, materialise leg_proto = Ok leg → sized 1 leg.
Hypothesis sized_negate : ∀ n leg, sized n leg → sized n (negate_notional leg).
Hypothesis sized_update : ∀ n m current_leg leg merged,
  sized n current_leg → sized m leg →
  update current_leg leg = (merged, None) → sized (n + m) merged.

Lemma legs_of_sized swap_proto two :
  legs_of hash materialise swap_proto = Ok two →
  sized 1 two.1 ∧ sized 1 two.2.
Proof.
  unfold legs_of. rewrite shuffled_legs_cases.
  destruct (materialise (pay_leg swap_proto)) as [pay|e] eqn:Hpay; [|done].
  destruct (materialise (receive_leg swap_proto)) as [receive|e] eqn:Hrecv;
    [|done].
  intros [= <-].
  pose proof (sized_materialise _ _ Hpay) as Hp.
  pose proof (sized_materialise _ _ Hrecv) as Hr.
  destruct (hash swap_proto).2; simpl; split; auto.
Qed.

Lemma buckets_sized_step (seen : list InterestRateSwap) d swap_proto d' :
  map_Forall (λ _, bucket_sized sized) d →
  prepare_step hash materialise update config d swap_proto = Ok d' →
  map_Forall (λ _, bucket_sized sized) d'.
Proof.
  intros Hinv. rewrite prepare_step_cases.
  destruct (legs_of hash materialise swap_proto) as [two|e] eqn:Hpair;
    [|done].
  simpl. destruct (legs_of_sized _ _ Hpair) as [Hpay1 Hrecv1].
  destruct (d !! (hash swap_proto).1) as [batch|] eqn:Hlook.
  - destruct (update (batch_pay_leg batch) _) as [cp [e|]] eqn:Hpay; [done|].
    destruct (update (batch_receive_leg batch) _) as [cr [e|]] eqn:Hrecv;
      [done|].
    intros [= <-]. apply map_Forall_insert_2; [|done].
    destruct (Hinv _ _ Hlook) as (Hm & Hn & Hp & Hr).
    unfold bucket_sized. simpl. rewrite !length_app. simpl.
    rewrite Hm, Hn. do 2 (split; [done|]).
    split.
    + apply (sized_update _ _ _ _ _ Hp Hpay1 Hpay).
    + apply (sized_update _ _ _ _ _ Hr Hrecv1 Hrecv).
  - intros [= <-]. apply map_Forall_insert_2; [|done].
    unfold bucket_sized. simpl. auto.
Qed.

Lemma prepare_loop_sized proto_list d :
  prepare_loop hash materialise update config ∅ proto_list = Ok d →
  map_Forall (λ _, bucket_sized sized) d.
Proof.
  intros Hrun.
  apply (prepare_loop_invariant (λ _, map_Forall (λ _, bucket_sized sized))
           buckets_sized_step proto_list [] ∅ d); [|done].
  apply map_Forall_empty.
Qed.

Lemma materialised_sized swaps legs :
  materialised hash materialise swaps legs →
  Forall (λ two, sized 1 two.1 ∧ sized 1 two.2) legs.
Proof.
  induction 1 as [|s two swaps legs Hpair _ IH]; [done|].
  apply Forall_cons. split; [by eapply legs_of_sized|done].
Qed.

End Sized.

End Loop.

(** ** Progress of the loop *)

Section Progress.
Context `{Collaborators} {C F I T : Type}.
Local Abbreviation L := (CouponSpecs C F I).
Variable hash : InterestRateSwap → string * bool.
Variable materialise : SwapLeg → result L.
Variable update : L → L → L * option Exception.
Variable config : option InterestRateSwapConfig.
Variable tuple : InterestRateSwap → list (option Z).
Variable tag : L → T.
Hypothesis hash_of_tuple : ∀ s, (hash s).1 = _hasher (tuple s).
Hypothesis tag_of_tuple : ∀ s1 s2 two_1 two_2,
  tuple s1 = tuple s2 →
  legs_of hash materialise s1 = Ok two_1 →
  legs_of hash materialise s2 = Ok two_2 →
  tag two_1.1 = tag two_2.1 ∧ tag two_1.2 = tag two_2.2.
Hypothesis update_same_tag : ∀ current_leg leg,
  tag current_leg = tag leg →
  ∃ merged, update current_leg leg = (merged, None)
            ∧ tag merged = tag current_leg.

Lemma legs_of_is_Ok swap_proto :
  is_Ok (legs_of hash materialise swap_proto)
  ↔ is_Ok (materialise (pay_leg swap_proto))
    ∧ is_Ok (materialise (receive_leg swap_proto)).
Proof.
  unfold legs_of. rewrite shuffled_legs_cases. unfold is_Ok.
  destruct (materialise (pay_leg swap_proto)) as [pay|e];
    [|split; [by intros [? ?]|by intros [[? ?] _]]].
  destruct (materialise (receive_leg swap_proto)) as [receive|e];
    [|split; [by intros [? ?]|by intros [_ [? ?]]]].
  split; [intros _; split; by eexists|intros _; by eexists].
Qed.

Lemma same_digest_same_tuple s1 s2 :
  no_collision (json_dumps (tuple s1)) (json_dumps (tuple s2)) →
  (hash s1).1 = (hash s2).1 → tuple s1 = tuple s2.
Proof.
  intros Hfree. rewrite !hash_of_tuple. unfold _hasher. intros Heq.
  by apply json_dumps_inj, Hfree.
Qed.

Lemma prepare_step_progress seen d swap_proto :
  buckets_tagged hash materialise tag seen d →
  collision_free tuple (seen ++ [swap_proto]) →
  is_Ok (legs_of hash materialise swap_proto) →
  ∃ d', prepare_step hash materialise update config d swap_proto = Ok d'
        ∧ buckets_tagged hash materialise tag (seen ++ [swap_proto]) d'.
Proof.
  intros Hinv Hfree [two Htwo]. rewrite prepare_step_cases, Htwo. simpl.
  destruct (d !! (hash swap_proto).1) as [batch|] eqn:Hlook.
  - destruct (Hinv _ _ Hlook) as (s & two_s & Hin & Hhash & Hs & Hpay & Hreceive).
    assert (tuple s = tuple swap_proto) as Htuple.
    { apply same_digest_same_tuple; [|done].
      apply Hfree; apply elem_of_app; [by left|right].
      by apply list_elem_of_singleton. }
    destruct (tag_of_tuple _ _ _ _ Htuple Hs Htwo) as [Htag1 Htag2].
    destruct (update_same_tag (batch_pay_leg batch) two.1) as (cp & -> & Hcp);
      [congruence|].
    destruct (update_same_tag (batch_receive_leg batch) two.2)
      as (cr & -> & Hcr); [congruence|].
    eexists. split; [done|]. intros h b.
    destruct (decide ((hash swap_proto).1 = h)) as [<-|Hne].
    + rewrite lookup_insert_eq. intros [= <-]. simpl.
      exists s, two_s. split; [apply elem_of_app; by left|].
      do 2 (split; [done|]). split; congruence.
    + rewrite lookup_insert_ne by done. intros Hb.
      destruct (Hinv _ _ Hb) as (s' & two' & ? & ? & ? & ? & ?).
      exists s', two'. split; [apply elem_of_app; by left|done].
  - eexists. split; [done|]. intros h b.
    destruct (decide ((hash swap_proto).1 = h)) as [<-|Hne].
    + rewrite lookup_insert_eq. intros [= <-]. simpl.
      exists swap_proto, two. split; [|done].
      apply elem_of_app. right. by apply list_elem_of_singleton.
    + rewrite lookup_insert_ne by done. intros Hb.
      destruct (Hinv _ _ Hb) as (s' & two' & ? & ? & ? & ? & ?).
      exists s', two'. split; [apply elem_of_app; by left|done].
Qed.

Lemma prepare_loop_progress proto_list seen d :
  buckets_tagged hash materialise tag seen d →
  collision_free tuple (seen ++ proto_list) →
  all_materialise materialise proto_list →
  ∃ d', prepare_loop hash materialise update config d proto_list = Ok d'.
Proof.
  revert seen d.
  induction proto_list as [|swap_proto rest IH]; intros seen d Hinv Hfree Hall.
  - by eexists.
  - simpl.
    destruct (prepare_step_progress seen d swap_proto Hinv) as (d1 & -> & Hd1).
    { intros s1 s2 Hs1 Hs2.
      apply Hfree; rewrite cons_middle, (assoc_L (++));
        apply elem_of_app; by left. }
    { apply legs_of_is_Ok, Hall, elem_of_cons. by left. }
    apply (IH (seen ++ [swap_proto])); [done|by rewrite <- app_assoc|].
    intros s Hs. apply Hall, elem_of_cons. by right.
Qed.

(** A call that returned materialised every swap of the list. *)
Lemma prepare_loop_all_materialise proto_list d d' :
  prepare_loop hash materialise update config d proto_list = Ok d' →
  all_materialise materialise proto_list.
Proof.
  revert d. induction proto_list as [|swap_proto rest IH]; intros d; simpl.
  - intros _ s Hs. by apply not_elem_of_nil in Hs.
  - destruct (prepare_step _ _ _ _ d swap_proto) as [d1|e] eqn:Hstep; [|done].
    intros Hrest s [->|Hs]%elem_of_cons; [|by eapply IH].
    apply legs_of_is_Ok. rewrite prepare_step_cases in Hstep.
    destruct (legs_of hash materialise swap_proto) as [two|e];
      [by eexists|done].
Qed.

End Progress.

(** ** Batches of the two pipelines *)

Section Batches.
Context `{Collaborators}.

(** A successful [update_leg] between two floating legs. *)
Lemma update_leg_float_ok cur new merged :
  update_leg (Float cur) (Float new) = (merged, None) →
  ri_type (fl_floating_rate_type cur) = ri_type (fl_floating_rate_type new)
  ∧ merged = Float {|
      fl_currency := fl_currency cur;
      fl_coupon_frequency := fl_coupon_frequency cur;
      fl_reset_frequency := fl_reset_frequency cur;
      fl_notional_amount := fl_notional_amount cur ++ fl_notional_amount new;
      fl_floating_rate_type := {|
        ri_type := ri_type (fl_floating_rate_type cur);
        ri_name := ri_name (fl_floating_rate_type cur)
                   ++ ri_name (fl_floating_rate_type new);
        ri_source := ri_source (fl_floating_rate_type cur)
                     ++ ri_source (fl_floating_rate_type new) |};
      fl_settlement_days := fl_settlement_days cur ++ fl_settlement_days new;
      fl_businessday_rule := fl_businessday_rule cur;
      fl_daycount_convention := fl_daycount_convention cur;
      fl_spread := fl_spread cur ++ fl_spread new;
      fl_calendar := fl_calendar cur |}.
Proof.
  simpl. rewrite update_rate_index_cases.
  destruct (decide _) as [Heq|Hne]; [|done]. by intros [= <-].
Qed.

Ltac merged_by_cases :=
  intros [cur|cur] [new|new] merged Hupdate;
  [ injection Hupdate as <-; done
  | done
  | done
  | first [ apply update_leg_float_ok in Hupdate as [_ ->]; done
          | injection Hupdate as <-; done ] ].

Lemma update_leg_merges :
  merged_by update_leg notional_of
  ∧ merged_by update_leg fixed_rate_of
  ∧ merged_by update_leg spread_of
  ∧ merged_by update_leg settlement_days_of
  ∧ merged_by update_leg index_names_of
  ∧ merged_by update_leg index_sources_of.
Proof. repeat split; merged_by_cases. Qed.

Lemma update_leg_v2_merges :
  merged_by update_leg_v2 notional_of
  ∧ merged_by update_leg_v2 fixed_rate_of
  ∧ merged_by update_leg_v2 spread_of
  ∧ merged_by update_leg_v2 settlement_days_of
  ∧ merged_by update_leg_v2 currencies_of
  ∧ merged_by update_leg_v2 coupon_amounts_of
  ∧ merged_by update_leg_v2 reset_amounts_of
  ∧ merged_by update_leg_v2 rate_indices_of.
Proof. repeat split; merged_by_cases. Qed.

(** Splits the goal along the conversions of a materialiser that returned. *)
Ltac materialised_cases H :=
  repeat match type of H with
         | context [mbind _ ?r] =>
             let Hr := fresh "Hconv" in
             destruct r eqn:Hr; simpl in H; [|discriminate H]
         end.

Lemma rate_index_from_proto_ok rate_index index :
  rate_index_from_proto rate_index = Ok index →
  rate_index_type_from_proto (index_type rate_index) = Ok (ri_type index)
  ∧ length (ri_name index) = 1
  ∧ length (ri_source index) = 1.
Proof.
  unfold rate_index_from_proto. intros Hindex. materialised_cases Hindex.
  by injection Hindex as <-.
Qed.

Lemma leg_from_proto_lengths leg_proto leg :
  leg_from_proto leg_proto = Ok leg → leg_lengths 1 leg.
Proof.
  destruct leg_proto as [l|l]; unfold leg_from_proto; intros Hleg.
  - materialised_cases Hleg. by injection Hleg as <-.
  - destruct (rate_index_from_proto (floating_floating_rate_type l))
      as [index|e] eqn:Hindex; simpl in Hleg; [|done].
    apply rate_index_from_proto_ok in Hindex as (_ & ? & ?).
    materialised_cases Hleg. by injection Hleg as <-.
Qed.

Lemma leg_from_proto_v2_lengths leg_proto leg :
  leg_from_proto_v2 leg_proto = Ok leg → leg_lengths_v2 1 leg.
Proof.
  destruct leg_proto as [l|l]; unfold leg_from_proto_v2; intros Hleg.
  - simpl in Hleg. materialised_cases Hleg. by injection Hleg as <-.
  - destruct (rate_index_from_proto (floating_floating_rate_type l))
      as [index|e] eqn:Hindex; simpl in Hleg; [|done].
    apply rate_index_from_proto_ok in Hindex as (_ & ? & ?).
    materialised_cases Hleg. injection Hleg as <-. simpl.
    repeat split; try done. by apply Forall_singleton.
Qed.

Lemma negate_notional_lengths n leg :
  leg_lengths n leg → leg_lengths n (negate_notional leg).
Proof. destruct leg; simpl; by rewrite length_fmap. Qed.

Lemma negate_notional_lengths_v2 n leg :
  leg_lengths_v2 n leg → leg_lengths_v2 n (negate_notional leg).
Proof. destruct leg; simpl; by rewrite length_fmap. Qed.

Lemma update_leg_lengths n m current_leg leg merged :
  leg_lengths n current_leg → leg_lengths m leg →
  update_leg current_leg leg = (merged, None) →
  leg_lengths (n + m) merged.
Proof.
  destruct current_leg as [cur|cur], leg as [new|new]; try done.
  - intros (?&?&?) (?&?&?) [= <-]. simpl. rewrite !length_app. auto.
  - intros (?&?&?&?&?) (?&?&?&?&?) [_ ->]%update_leg_float_ok.
    simpl. rewrite !length_app. repeat split; auto.
Qed.

Lemma update_leg_v2_lengths n m current_leg leg merged :
  leg_lengths_v2 n current_leg → leg_lengths_v2 m leg →
  update_leg_v2 current_leg leg = (merged, None) →
  leg_lengths_v2 (n + m) merged.
Proof.
  destruct current_leg as [cur|cur], leg as [new|new]; try done.
  - intros (?&?&?&?&?) (?&?&?&?&?) [= <-]. simpl. rewrite !length_app.
    repeat split; auto.
  - intros (?&?&?&?&?&?&?&?) (?&?&?&?&?&?&?&?) [= <-]. simpl.
    rewrite !length_app. repeat split; auto. by apply Forall_app.
Qed.

(** C4, as the code has it. In every batch returned by [from_protos] and by
    [from_protos_v2], the start dates, the maturity dates and the names are
    as many as the swaps merged into the batch, and every per-swap sequence
    of the pay leg and of the receive leg has that length: notional, fixed
    rate or spread, settlement days and, in the legacy pipeline, the names
    and the sources of the rate index; in the v2 pipeline, the currencies,
    the frequency amounts and the list of rate indices, each rate index of
    that list keeping one name and one source. *)
Theorem batch_sequences_equal_length (proto_list : list InterestRateSwap)
    (config : option InterestRateSwapConfig) :
  (∀ d, from_protos proto_list config = Ok d →
     map_Forall (λ h batch,
       length (start_date batch) = length (members get_hash h proto_list)
       ∧ bucket_sized leg_lengths batch) d)
  ∧ (∀ d, from_protos_v2 proto_list config = Ok d →
       map_Forall (λ h batch,
         length (start_date batch) = length (members get_hash_v2 h proto_list)
         ∧ bucket_sized leg_lengths_v2 batch) d).
Proof.
  split; intros d Hrun h batch Hlook.
  - split.
    + pose proof (prepare_loop_content _ _ _ _ _ _ Hrun h) as Hcontent.
      rewrite Hlook in Hcontent. destruct Hcontent as [_ (-> & _)].
      by rewrite length_fmap.
    + eapply (prepare_loop_sized get_hash leg_from_proto update_leg config
                leg_lengths); eauto using leg_from_proto_lengths,
                negate_notional_lengths, update_leg_lengths.
  - split.
    + pose proof (prepare_loop_content _ _ _ _ _ _ Hrun h) as Hcontent.
      rewrite Hlook in Hcontent. destruct Hcontent as [_ (-> & _)].
      by rewrite length_fmap.
    + eapply (prepare_loop_sized get_hash_v2 leg_from_proto_v2 update_leg_v2
                config leg_lengths_v2); eauto using leg_from_proto_v2_lengths,
                negate_notional_lengths_v2, update_leg_v2_lengths.
Qed.

Lemma leg_tag_negate (leg : Leg) : leg_tag (negate_notional leg) = leg_tag leg.
Proof. by destruct leg. Qed.

Lemma is_fixed_negate {C F I} (leg : CouponSpecs C F I) :
  is_fixed_specs (negate_notional leg) = is_fixed_specs leg.
Proof. by destruct leg. Qed.

Lemma leg_tag_from_proto leg_proto leg :
  leg_from_proto leg_proto = Ok leg →
  Ok <$> leg_tag leg = shape_tag (leg_shape leg_proto).
Proof.
  destruct leg_proto as [l|l]; unfold leg_from_proto; intros Hleg.
  - materialised_cases Hleg. by injection Hleg as <-.
  - destruct (rate_index_from_proto (floating_floating_rate_type l))
      as [index|e] eqn:Hindex; simpl in Hleg; [|done].
    apply rate_index_from_proto_ok in Hindex as (Htype & _).
    materialised_cases Hleg. injection Hleg as <-. simpl. by rewrite Htype.
Qed.

Lemma is_fixed_from_proto leg_proto leg :
  leg_from_proto leg_proto = Ok leg →
  is_fixed_specs leg = is_fixed_proto leg_proto.
Proof.
  destruct leg_proto as [l|l]; unfold leg_from_proto; intros Hleg.
  - materialised_cases Hleg. by injection Hleg as <-.
  - destruct (rate_index_from_proto (floating_floating_rate_type l));
      simpl in Hleg; [|done].
    materialised_cases Hleg. by injection Hleg as <-.
Qed.

Lemma is_fixed_from_proto_v2 leg_proto leg :
  leg_from_proto_v2 leg_proto = Ok leg →
  is_fixed_specs leg = is_fixed_proto leg_proto.
Proof.
  destruct leg_proto as [l|l]; unfold leg_from_proto_v2; intros Hleg.
  - simpl in Hleg. materialised_cases Hleg. by injection Hleg as <-.
  - destruct (rate_index_from_proto (floating_floating_rate_type l));
      simpl in Hleg; [|done].
    materialised_cases Hleg. by injection Hleg as <-.
Qed.

(** The legs of a swap, once in their roles, in terms of its two
    materialised legs. *)
Lemma legs_of_get_hash swap_proto :
  legs_of get_hash leg_from_proto swap_proto
  = match leg_from_proto (pay_leg swap_proto) with
    | Raise e => Raise e
    | Ok pay =>
        match leg_from_proto (receive_leg swap_proto) with
        | Raise e => Raise e
        | Ok receive =>
            Ok (if entered_reversed swap_proto
                then (negate_notional receive, negate_notional pay)
                else (pay, receive))
        end
    end.
Proof.
  unfold legs_of. by rewrite shuffled_legs_cases, get_hash_unfold.
Qed.

Lemma legs_of_get_hash_v2 swap_proto :
  legs_of get_hash_v2 leg_from_proto_v2 swap_proto
  = match leg_from_proto_v2 (pay_leg swap_proto) with
    | Raise e => Raise e
    | Ok pay =>
        match leg_from_proto_v2 (receive_leg swap_proto) with
        | Raise e => Raise e
        | Ok receive =>
            Ok (if entered_reversed swap_proto
                then (negate_notional receive, negate_notional pay)
                else (pay, receive))
        end
    end.
Proof.
  unfold legs_of. by rewrite shuffled_legs_cases, get_hash_v2_unfold.
Qed.

Lemma legs_of_tag swap_proto two :
  legs_of get_hash leg_from_proto swap_proto = Ok two →
  Ok <$> leg_tag two.1 = shape_tag (shape_pay (canonical_shape swap_proto))
  ∧ Ok <$> leg_tag two.2
    = shape_tag (shape_receive (canonical_shape swap_proto)).
Proof.
  rewrite legs_of_get_hash. unfold canonical_shape.
  destruct (leg_from_proto (pay_leg swap_proto)) as [pay|e] eqn:Hpay; [|done].
  destruct (leg_from_proto (receive_leg swap_proto)) as [receive|e] eqn:Hrecv;
    [|done].
  apply leg_tag_from_proto in Hpay, Hrecv. intros [= <-].
  destruct (entered_reversed swap_proto); simpl;
    by rewrite ?leg_tag_negate, Hpay, Hrecv.
Qed.

Lemma legs_of_kinds swap_proto two :
  legs_of get_hash leg_from_proto swap_proto = Ok two →
  is_fixed_specs two.1 = (canonical_kinds swap_proto).1
  ∧ is_fixed_specs two.2 = (canonical_kinds swap_proto).2.
Proof.
  rewrite legs_of_get_hash. unfold canonical_kinds, entered_reversed.
  destruct (leg_from_proto (pay_leg swap_proto)) as [pay|e] eqn:Hpay; [|done].
  destruct (leg_from_proto (receive_leg swap_proto)) as [receive|e] eqn:Hrecv;
    [|done].
  apply is_fixed_from_proto in Hpay, Hrecv. intros [= <-].
  destruct (is_fixed_proto (pay_leg swap_proto)),
    (is_fixed_proto (receive_leg swap_proto)); simpl;
    by rewrite ?is_fixed_negate, Hpay, Hrecv.
Qed.

Lemma legs_of_kinds_v2 swap_proto two :
  legs_of get_hash_v2 leg_from_proto_v2 swap_proto = Ok two →
  is_fixed_specs two.1 = (canonical_kinds swap_proto).1
  ∧ is_fixed_specs two.2 = (canonical_kinds swap_proto).2.
Proof.
  rewrite legs_of_get_hash_v2. unfold canonical_kinds, entered_reversed.
  destruct (leg_from_proto_v2 (pay_leg swap_proto)) as [pay|e] eqn:Hpay;
    [|done].
  destruct (leg_from_proto_v2 (receive_leg swap_proto)) as [receive|e]
    eqn:Hrecv; [|done].
  apply is_fixed_from_proto_v2 in Hpay, Hrecv. intros [= <-].
  destruct (is_fixed_proto (pay_leg swap_proto)),
    (is_fixed_proto (receive_leg swap_proto)); simpl;
    by rewrite ?is_fixed_negate, Hpay, Hrecv.
Qed.

Lemma canonical_kinds_of_shape_v2 swap_1 swap_2 :
  canonical_shape_v2 swap_1 = canonical_shape_v2 swap_2 →
  canonical_kinds swap_1 = canonical_kinds swap_2.
Proof.
  unfold canonical_shape_v2, canonical_kinds, entered_reversed.
  destruct (pay_leg swap_1), (receive_leg swap_1), (pay_leg swap_2),
    (receive_leg swap_2); simpl; by intros [=].
Qed.

Lemma update_leg_same_tag (current_leg leg : Leg) :
  leg_tag current_leg = leg_tag leg →
  ∃ merged, update_leg current_leg leg = (merged, None)
            ∧ leg_tag merged = leg_tag current_leg.
Proof.
  destruct current_leg as [cur|cur], leg as [new|new]; simpl; intros [=].
  - by eexists.
  - rewrite update_rate_index_cases, decide_True by done. by eexists.
Qed.

Lemma update_leg_v2_same_kind (current_leg leg : LegV2) :
  is_fixed_specs current_leg = is_fixed_specs leg →
  ∃ merged, update_leg_v2 current_leg leg = (merged, None)
            ∧ is_fixed_specs merged = is_fixed_specs current_leg.
Proof.
  destruct current_leg as [cur|cur], leg as [new|new]; simpl; intros [=];
    by eexists.
Qed.

(** Without a collision, and with legs that can all be materialised, the
    two loops raise nothing. *)
Lemma from_protos_progress proto_list config :
  collision_free hashed_tuple proto_list →
  all_materialise leg_from_proto proto_list →
  ∃ d, from_protos proto_list config = Ok d.
Proof.
  intros Hfree Hall.
  apply (prepare_loop_progress get_hash leg_from_proto update_leg config
           hashed_tuple leg_tag) with (seen := []); [| | |done|done|done].
  - intros s. by rewrite get_hash_unfold.
  - intros s1 s2 two_1 two_2 Htuple H1 H2.
    apply hashed_tuple_shape in Htuple.
    destruct (legs_of_tag _ _ H1) as [Hp1 Hr1],
      (legs_of_tag _ _ H2) as [Hp2 Hr2].
    rewrite Htuple, <- Hp2 in Hp1. rewrite Htuple, <- Hr2 in Hr1.
    split; [by destruct (leg_tag two_1.1), (leg_tag two_2.1); simplify_eq/=
           |by destruct (leg_tag two_1.2), (leg_tag two_2.2); simplify_eq/=].
  - apply update_leg_same_tag.
Qed.

Lemma from_protos_v2_progress proto_list config :
  collision_free hashed_tuple_v2 proto_list →
  all_materialise leg_from_proto_v2 proto_list →
  ∃ d, from_protos_v2 proto_list config = Ok d.
Proof.
  intros Hfree Hall.
  apply (prepare_loop_progress get_hash_v2 leg_from_proto_v2 update_leg_v2
           config hashed_tuple_v2 is_fixed_specs) with (seen := []);
    [| | |done|done|done].
  - intros s. by rewrite get_hash_v2_unfold.
  - intros s1 s2 two_1 two_2 Htuple H1 H2.
    apply hashed_tuple_v2_shape, canonical_kinds_of_shape_v2 in Htuple.
    destruct (legs_of_kinds_v2 _ _ H1) as [-> ->],
      (legs_of_kinds_v2 _ _ H2) as [-> ->].
    by rewrite Htuple.
  - apply update_leg_v2_same_kind.
Qed.

(** C5. On a list whose legs can all be materialised and on whose
    serialised tuples the digest does not collide, [from_protos] and
    [from_protos_v2] return. Whenever they return, the result has a bucket
    for exactly the digests of the swaps of the list, and in the bucket of a
    digest the start dates, the maturity dates and the (name, instrument
    type) pairs are those of the swaps with this digest, in the order of the
    list, and every per-swap field of the pay leg and of the receive leg is
    the concatenation, in that same order, of the entries contributed by
    these swaps, one entry per swap and field: the entries of their
    materialised legs, exchanged and with negated notional for a swap the
    hash flips. *)
Theorem batches_preserve_encounter_order (proto_list : list InterestRateSwap)
    (config : option InterestRateSwapConfig) :
  ((collision_free hashed_tuple proto_list →
    all_materialise leg_from_proto proto_list →
    ∃ d, from_protos proto_list config = Ok d)
   ∧ ∀ d h,
       from_protos proto_list config = Ok d →
       match members get_hash h proto_list with
       | [] => d !! h = None
       | merged =>
           ∃ batch legs,
             d !! h = Some batch
             ∧ materialised get_hash leg_from_proto merged legs
             ∧ Forall (λ two, leg_lengths 1 two.1 ∧ leg_lengths 1 two.2) legs
             ∧ start_date batch
               = (λ s, date_list (effective_date s)) <$> merged
             ∧ maturity_date_list batch
               = (λ s, date_list (maturity_date s)) <$> merged
             ∧ batch_names batch = name_and_type <$> merged
             ∧ (notional_of (batch_pay_leg batch)
                = legs ≫= (λ two, notional_of two.1)
                ∧ notional_of (batch_receive_leg batch)
                  = legs ≫= (λ two, notional_of two.2))
             ∧ (fixed_rate_of (batch_pay_leg batch)
                = legs ≫= (λ two, fixed_rate_of two.1)
                ∧ fixed_rate_of (batch_receive_leg batch)
                  = legs ≫= (λ two, fixed_rate_of two.2))
             ∧ (spread_of (batch_pay_leg batch)
                = legs ≫= (λ two, spread_of two.1)
                ∧ spread_of (batch_receive_leg batch)
                  = legs ≫= (λ two, spread_of two.2))
             ∧ (settlement_days_of (batch_pay_leg batch)
                = legs ≫= (λ two, settlement_days_of two.1)
                ∧ settlement_days_of (batch_receive_leg batch)
                  = legs ≫= (λ two, settlement_days_of two.2))
       end)
  ∧ ((collision_free hashed_tuple_v2 proto_list →
      all_materialise leg_from_proto_v2 proto_list →
      ∃ d, from_protos_v2 proto_list config = Ok d)
     ∧ ∀ d h,
         from_protos_v2 proto_list config = Ok d →
         match members get_hash_v2 h proto_list with
         | [] => d !! h = None
         | merged =>
             ∃ batch legs,
               d !! h = Some batch
               ∧ materialised get_hash_v2 leg_from_proto_v2 merged legs
               ∧ Forall (λ two, leg_lengths_v2 1 two.1
                                ∧ leg_lengths_v2 1 two.2) legs
               ∧ start_date batch
                 = (λ s, date_list (effective_date s)) <$> merged
               ∧ maturity_date_list batch
                 = (λ s, date_list (maturity_date s)) <$> merged
               ∧ batch_names batch = name_and_type <$> merged
               ∧ (notional_of (batch_pay_leg batch)
                  = legs ≫= (λ two, notional_of two.1)
                  ∧ notional_of (batch_receive_leg batch)
                    = legs ≫= (λ two, notional_of two.2))
               ∧ (fixed_rate_of (batch_pay_leg batch)
                  = legs ≫= (λ two, fixed_rate_of two.1)
                  ∧ fixed_rate_of (batch_receive_leg batch)
                    = legs ≫= (λ two, fixed_rate_of two.2))
               ∧ (spread_of (batch_pay_leg batch)
                  = legs ≫= (λ two, spread_of two.1)
                  ∧ spread_of (batch_receive_leg batch)
                    = legs ≫= (λ two, spread_of two.2))
               ∧ (settlement_days_of (batch_pay_leg batch)
                  = legs ≫= (λ two, settlement_days_of two.1)
                  ∧ settlement_days_of (batch_receive_leg batch)
                    = legs ≫= (λ two, settlement_days_of two.2))
               ∧ (coupon_amounts_of (batch_pay_leg batch)
                  = legs ≫= (λ two, coupon_amounts_of two.1)
                  ∧ coupon_amounts_of (batch_receive_leg batch)
                    = legs ≫= (λ two, coupon_amounts_of two.2))
               ∧ (reset_amounts_of (batch_pay_leg batch)
                  = legs ≫= (λ two, reset_amounts_of two.1)
                  ∧ reset_amounts_of (batch_receive_leg batch)
                    = legs ≫= (λ two, reset_amounts_of two.2))
         end).
Proof.
  split; (split; [first [apply from_protos_progress
                        |apply from_protos_v2_progress]|]);
    intros d h Hrun;
    pose proof (prepare_loop_content _ _ _ _ _ _ Hrun h) as Hcontent.
  - destruct (d !! h) as [batch|];
      [destruct Hcontent as [Hne (Hs & Hm & Hn & _ & legs & Hlegs & Hcol)]
      |by rewrite Hcontent].
    destruct (members get_hash h proto_list) as [|first rest] eqn:Hmem;
      [done|].
    destruct update_leg_merges as (Hc1 & Hc2 & Hc3 & Hc4 & _).
    exists batch, legs. do 2 (split; [done|]).
    split.
    { apply (materialised_sized get_hash leg_from_proto leg_lengths)
        with (swaps := first :: rest);
        [apply leg_from_proto_lengths|apply negate_notional_lengths|done]. }
    do 3 (split; [done|]).
    split; [apply (Hcol _ _ Hc1)|]. split; [apply (Hcol _ _ Hc2)|].
    split; [apply (Hcol _ _ Hc3)|apply (Hcol _ _ Hc4)].
  - destruct (d !! h) as [batch|];
      [destruct Hcontent as [Hne (Hs & Hm & Hn & _ & legs & Hlegs & Hcol)]
      |by rewrite Hcontent].
    destruct (members get_hash_v2 h proto_list) as [|first rest] eqn:Hmem;
      [done|].
    destruct update_leg_v2_merges
      as (Hc1 & Hc2 & Hc3 & Hc4 & _ & Hc6 & Hc7 & _).
    exists batch, legs. do 2 (split; [done|]).
    split.
    { apply (materialised_sized get_hash_v2 leg_from_proto_v2 leg_lengths_v2)
        with (swaps := first :: rest);
        [apply leg_from_proto_v2_lengths|apply negate_notional_lengths_v2
        |done]. }
    do 3 (split; [done|]).
    split; [apply (Hcol _ _ Hc1)|]. split; [apply (Hcol _ _ Hc2)|].
    split; [apply (Hcol _ _ Hc3)|]. split; [apply (Hcol _ _ Hc4)|].
    split; [apply (Hcol _ _ Hc6)|apply (Hcol _ _ Hc7)].
Qed.

Lemma entered_reversed_mirrored swap_proto :
  entered_reversed swap_proto = true →
  entered_reversed (mirrored swap_proto) = false.
Proof.
  unfold entered_reversed, mirrored. simpl.
  by destruct (pay_leg swap_proto), (receive_leg swap_proto).
Qed.

Lemma hashed_tuple_mirrored swap_proto :
  entered_reversed swap_proto = true →
  hashed_tuple swap_proto = hashed_tuple (mirrored swap_proto)
  ∧ hashed_tuple_v2 swap_proto = hashed_tuple_v2 (mirrored swap_proto).
Proof.
  intros Hrev. rewrite !hashed_tuple_cases, !hashed_tuple_v2_cases.
  by rewrite (entered_reversed_mirrored _ Hrev), Hrev.
Qed.

Lemma notional_of_negate {C F I} (leg : CouponSpecs C F I) :
  notional_of (negate_notional leg) = PrimFloat.opp <$> notional_of leg.
Proof. by destruct leg. Qed.

Lemma from_protos_singleton swap_proto config :
  from_protos [swap_proto] config
  = match legs_of get_hash leg_from_proto swap_proto with
    | Ok two =>
        Ok {[ (get_hash swap_proto).1 :=
                single_batch config swap_proto two.1 two.2 ]}
    | Raise e => Raise e
    end.
Proof.
  unfold from_protos.
  destruct (legs_of get_hash leg_from_proto swap_proto) as [two|e] eqn:Htwo.
  - by apply prepare_loop_singleton.
  - by apply prepare_loop_singleton_raises.
Qed.

Lemma from_protos_v2_singleton swap_proto config :
  from_protos_v2 [swap_proto] config
  = match legs_of get_hash_v2 leg_from_proto_v2 swap_proto with
    | Ok two =>
        Ok {[ (get_hash_v2 swap_proto).1 :=
                single_batch config swap_proto two.1 two.2 ]}
    | Raise e => Raise e
    end.
Proof.
  unfold from_protos_v2.
  destruct (legs_of get_hash_v2 leg_from_proto_v2 swap_proto) as [two|e]
    eqn:Htwo.
  - by apply prepare_loop_singleton.
  - by apply prepare_loop_singleton_raises.
Qed.

(** C3. A swap entered with a floating pay leg and a fixed receive leg gets
    the bucket hash of its mirror (fixed pay leg, floating receive leg, same
    terms), with [flip = true] where the mirror has [flip = false].
    [from_protos] returns on the swap exactly when its two legs can be
    materialised, which is also when it returns on the mirror. It then
    stores the materialised receive leg as the pay leg and the materialised
    pay leg as the receive leg, each with every notional negated, so that
    the bucket made of the swap is the bucket made of its mirror with the
    notionals of both legs negated. The same holds for [from_protos_v2]. *)
Theorem flip_correctness (swap_proto : InterestRateSwap)
    (config : option InterestRateSwapConfig) :
  entered_reversed swap_proto = true →
  let mirror := mirrored swap_proto in
  (get_hash swap_proto = ((get_hash mirror).1, true)
   ∧ (get_hash mirror).2 = false
   ∧ (is_Ok (from_protos [swap_proto] config)
      ↔ is_Ok (leg_from_proto (pay_leg swap_proto))
        ∧ is_Ok (leg_from_proto (receive_leg swap_proto)))
   ∧ (is_Ok (from_protos [swap_proto] config)
      ↔ is_Ok (from_protos [mirror] config))
   ∧ ∀ pay receive,
       leg_from_proto (pay_leg swap_proto) = Ok pay →
       leg_from_proto (receive_leg swap_proto) = Ok receive →
       legs_of get_hash leg_from_proto mirror = Ok (receive, pay)
       ∧ legs_of get_hash leg_from_proto swap_proto
         = Ok (negate_notional receive, negate_notional pay)
       ∧ notional_of (negate_notional receive)
         = PrimFloat.opp <$> notional_of receive
       ∧ notional_of (negate_notional pay) = PrimFloat.opp <$> notional_of pay
       ∧ from_protos [mirror] config
         = Ok {[ (get_hash mirror).1 :=
                   single_batch config swap_proto receive pay ]}
       ∧ from_protos [swap_proto] config
         = Ok {[ (get_hash mirror).1 :=
                   single_batch config swap_proto
                     (negate_notional receive) (negate_notional pay) ]})
  ∧ (get_hash_v2 swap_proto = ((get_hash_v2 mirror).1, true)
     ∧ (get_hash_v2 mirror).2 = false
     ∧ (is_Ok (from_protos_v2 [swap_proto] config)
        ↔ is_Ok (leg_from_proto_v2 (pay_leg swap_proto))
          ∧ is_Ok (leg_from_proto_v2 (receive_leg swap_proto)))
     ∧ (is_Ok (from_protos_v2 [swap_proto] config)
        ↔ is_Ok (from_protos_v2 [mirror] config))
     ∧ ∀ pay receive,
         leg_from_proto_v2 (pay_leg swap_proto) = Ok pay →
         leg_from_proto_v2 (receive_leg swap_proto) = Ok receive →
         legs_of get_hash_v2 leg_from_proto_v2 mirror = Ok (receive, pay)
         ∧ legs_of get_hash_v2 leg_from_proto_v2 swap_proto
           = Ok (negate_notional receive, negate_notional pay)
         ∧ notional_of (negate_notional receive)
           = PrimFloat.opp <$> notional_of receive
         ∧ notional_of (negate_notional pay)
           = PrimFloat.opp <$> notional_of pay
         ∧ from_protos_v2 [mirror] config
           = Ok {[ (get_hash_v2 mirror).1 :=
                     single_batch config swap_proto receive pay ]}
         ∧ from_protos_v2 [swap_proto] config
           = Ok {[ (get_hash_v2 mirror).1 :=
                     single_batch config swap_proto
                       (negate_notional receive) (negate_notional pay) ]}).
Proof.
  intros Hrev mirror.
  pose proof (entered_reversed_mirrored _ Hrev) as Hmir.
  destruct (hashed_tuple_mirrored _ Hrev) as [Htuple Htuple_v2].
  assert (get_hash swap_proto = ((get_hash mirror).1, true)) as Hhash.
  { rewrite !get_hash_unfold. simpl. by rewrite Htuple, Hrev. }
  assert (get_hash_v2 swap_proto = ((get_hash_v2 mirror).1, true)) as Hhash_v2.
  { rewrite !get_hash_v2_unfold. simpl. by rewrite Htuple_v2, Hrev. }
  assert ((get_hash mirror).2 = false) as Hflag.
  { by rewrite get_hash_unfold. }
  assert ((get_hash_v2 mirror).2 = false) as Hflag_v2.
  { by rewrite get_hash_v2_unfold. }
  split.
  - do 2 (split; [done|]).
    rewrite !from_protos_singleton, !legs_of_get_hash, Hhash.
    subst mirror. rewrite Hmir, Hrev.
    change (pay_leg (mirrored swap_proto)) with (receive_leg swap_proto).
    change (receive_leg (mirrored swap_proto)) with (pay_leg swap_proto).
    unfold is_Ok.
    destruct (leg_from_proto (pay_leg swap_proto)) as [pay|e1];
      destruct (leg_from_proto (receive_leg swap_proto)) as [receive|e2];
      (split; [|split]);
      try (split; [intros [? [=]]|intros [[? [=]] [? [=]]]]; fail);
      try (split; intros [? [=]]; fail);
      try (intros ? ? [=]; fail); try (intros ? ? _ [=]; fail).
    + split; [intros _; split; by eexists|intros _; by eexists].
    + split; intros _; by eexists.
    + intros ? ? [= <-] [= <-]. by rewrite !notional_of_negate.
  - do 2 (split; [done|]).
    rewrite !from_protos_v2_singleton, !legs_of_get_hash_v2, Hhash_v2.
    subst mirror. rewrite Hmir, Hrev.
    change (pay_leg (mirrored swap_proto)) with (receive_leg swap_proto).
    change (receive_leg (mirrored swap_proto)) with (pay_leg swap_proto).
    unfold is_Ok.
    destruct (leg_from_proto_v2 (pay_leg swap_proto)) as [pay|e1];
      destruct (leg_from_proto_v2 (receive_leg swap_proto)) as [receive|e2];
      (split; [|split]);
      try (split; [intros [? [=]]|intros [[? [=]] [? [=]]]]; fail);
      try (split; intros [? [=]]; fail);
      try (intros ? ? [=]; fail); try (intros ? ? _ [=]; fail).
    + split; [intros _; split; by eexists|intros _; by eexists].
    + split; intros _; by eexists.
    + intros ? ? [= <-] [= <-]. by rewrite !notional_of_negate.
Qed.

End Batches.

(** * Further properties *)

(** ** What the grouping returns *)

Section Grouping.
Context `{Collaborators}.
Variable hash : InterestRateSwap → string * bool.

Lemma group_of_snoc h seen swap_proto :
  group_of hash h (seen ++ [swap_proto])
  = if decide ((hash swap_proto).1 = h)
    then Some (default [] (group_of hash h seen) ++ [swap_proto])
    else group_of hash h seen.
Proof.
  unfold group_of, members. rewrite filter_app.
  change (filter _ [swap_proto])
    with (if decide ((hash swap_proto).1 = h) then [swap_proto] else []).
  destruct (decide _); [|by rewrite app_nil_r].
  by destruct (filter _ seen).
Qed.

Lemma group_step_lookup seen grouped swap_proto :
  (∀ h, grouped !! h = group_of hash h seen) →
  ∀ h, group_step hash grouped swap_proto !! h
       = group_of hash h (seen ++ [swap_proto]).
Proof.
  intros Hinv h. rewrite group_of_snoc. unfold group_step.
  destruct (hash swap_proto) as [hs flip] eqn:Hhash. simpl.
  pose proof (Hinv hs) as Hhs.
  destruct (decide (hs = h)) as [<-|Hne].
  - destruct (grouped !! hs) as [group|];
      rewrite lookup_insert_eq; by rewrite <- Hhs.
  - destruct (grouped !! hs); by rewrite lookup_insert_ne.
Qed.

Lemma group_fold_lookup proto_list seen grouped :
  (∀ h, grouped !! h = group_of hash h seen) →
  ∀ h, foldl (group_step hash) grouped proto_list !! h
       = group_of hash h (seen ++ proto_list).
Proof.
  revert seen grouped.
  induction proto_list as [|swap_proto rest IH]; intros seen grouped Hinv h.
  - by rewrite app_nil_r.
  - simpl. rewrite (IH (seen ++ [swap_proto])).
    + by rewrite <- app_assoc.
    + by apply group_step_lookup.
Qed.

End Grouping.

Section GroupingResults.
Context `{Collaborators}.

(** X1. [group_protos] and [group_protos_v2] map a digest to the swaps of
    the list that have this digest, in the order of the list, and hold no
    entry for a digest that no swap of the list has. *)
Theorem group_protos_content (proto_list : list InterestRateSwap)
    (config : option InterestRateSwapConfig) (h : string) :
  group_protos proto_list config !! h
  = match members get_hash h proto_list with
    | [] => None
    | group => Some group
    end
  ∧ group_protos_v2 proto_list config !! h
    = match members get_hash_v2 h proto_list with
      | [] => None
      | group => Some group
      end.
Proof.
  split.
  - apply (group_fold_lookup get_hash proto_list [] ∅).
    intros h'. by rewrite lookup_empty.
  - apply (group_fold_lookup get_hash_v2 proto_list [] ∅).
    intros h'. by rewrite lookup_empty.
Qed.

(** X2. When [from_protos] returns, its buckets are those of
    [group_protos] on the same list: the same digests, and under each
    digest the names and the start dates of the swaps of the group, in the
    order of the group. The same holds for the v2 pair. *)
Theorem from_protos_buckets_are_groups (proto_list : list InterestRateSwap)
    (config config' : option InterestRateSwapConfig) :
  (∀ d h, from_protos proto_list config = Ok d →
     batch_names <$> d !! h
     = fmap name_and_type <$> group_protos proto_list config' !! h
     ∧ start_date <$> d !! h
       = fmap (λ s, date_list (effective_date s))
         <$> group_protos proto_list config' !! h)
  ∧ (∀ d h, from_protos_v2 proto_list config = Ok d →
       batch_names <$> d !! h
       = fmap name_and_type <$> group_protos_v2 proto_list config' !! h
       ∧ start_date <$> d !! h
         = fmap (λ s, date_list (effective_date s))
           <$> group_protos_v2 proto_list config' !! h).
Proof.
  split; intros d h Hrun.
  - pose proof (prepare_loop_content _ _ _ _ _ _ Hrun h) as Hcontent.
    unfold group_protos.
    rewrite (group_fold_lookup get_hash proto_list [] ∅)
      by (intros h'; by rewrite lookup_empty).
    unfold group_of. simpl.
    destruct (d !! h) as [batch|].
    + destruct Hcontent as [Hne (Hstart & _ & Hnames & _)]. simpl.
      rewrite Hstart, Hnames.
      by destruct (members get_hash h proto_list).
    + by rewrite Hcontent.
  - pose proof (prepare_loop_content _ _ _ _ _ _ Hrun h) as Hcontent.
    unfold group_protos_v2.
    rewrite (group_fold_lookup get_hash_v2 proto_list [] ∅)
      by (intros h'; by rewrite lookup_empty).
    unfold group_of. simpl.
    destruct (d !! h) as [batch|].
    + destruct Hcontent as [Hne (Hstart & _ & Hnames & _)]. simpl.
      rewrite Hstart, Hnames.
      by destruct (members get_hash_v2 h proto_list).
    + by rewrite Hcontent.
Qed.

End GroupingResults.

(** ** When the loop returns *)

Section NoRaise.
Context `{Collaborators}.

(** X3. On a list on whose serialised legacy key tuples the digest does not
    collide, [from_protos] returns exactly when both legs of every swap of
    the list can be materialised (every enum code they carry has a name):
    the type check of [update_leg] and the index check of
    [update_rate_index] can fail on a digest collision only, and the only
    other exception is the one of a conversion. The same holds for
    [from_protos_v2] and the v2 key tuples. *)
Theorem from_protos_returns_without_collision
    (proto_list : list InterestRateSwap)
    (config : option InterestRateSwapConfig) :
  (collision_free hashed_tuple proto_list →
   is_Ok (from_protos proto_list config)
   ↔ all_materialise leg_from_proto proto_list)
  ∧ (collision_free hashed_tuple_v2 proto_list →
     is_Ok (from_protos_v2 proto_list config)
     ↔ all_materialise leg_from_proto_v2 proto_list).
Proof.
  split; intros Hfree; split.
  - intros [d Hrun]. by eapply prepare_loop_all_materialise.
  - by apply from_protos_progress.
  - intros [d Hrun]. by eapply prepare_loop_all_materialise.
  - by apply from_protos_v2_progress.
Qed.

End NoRaise.

(** ** Failed merges *)

Section FailedMerges.
Context `{Collaborators}.

(** X4. When [update_leg] merges two floating legs whose rate indices have
    different types, it raises the error of [update_rate_index], and it has
    by then already appended the new notional: the current leg is left with
    a longer notional sequence, all its other sequences unchanged. *)
Theorem update_leg_index_mismatch_keeps_notional
    (cur new : FloatCouponSpecs Currency Period RateIndex) :
  ri_type (fl_floating_rate_type cur) ≠ ri_type (fl_floating_rate_type new) →
  let outcome := update_leg (Float cur) (Float new) in
  outcome.2
  = Some (can_not_join (fl_floating_rate_type cur) (fl_floating_rate_type new))
  ∧ notional_of outcome.1 = fl_notional_amount cur ++ fl_notional_amount new
  ∧ spread_of outcome.1 = fl_spread cur
  ∧ settlement_days_of outcome.1 = fl_settlement_days cur
  ∧ index_names_of outcome.1 = ri_name (fl_floating_rate_type cur)
  ∧ index_sources_of outcome.1 = ri_source (fl_floating_rate_type cur).
Proof.
  intros Hne. simpl. rewrite update_rate_index_cases.
  by rewrite decide_False.
Qed.

Lemma update_leg_kinds_differ (current_leg leg : Leg) :
  is_fixed_specs current_leg ≠ is_fixed_specs leg →
  update_leg current_leg leg = (current_leg, Some type_mismatch).
Proof. by destruct current_leg, leg. Qed.

Lemma update_leg_v2_kinds_differ (current_leg leg : LegV2) :
  is_fixed_specs current_leg ≠ is_fixed_specs leg →
  update_leg_v2 current_leg leg = (current_leg, Some type_mismatch).
Proof. by destruct current_leg, leg. Qed.

Lemma update_leg_both_fixed (current_leg leg : Leg) :
  is_fixed_specs current_leg = true → is_fixed_specs leg = true →
  ∃ merged, update_leg current_leg leg = (merged, None).
Proof. destruct current_leg, leg; try done. by eexists. Qed.

(** Two swaps with one digest and legs of different kinds, in a loop. *)
Lemma colliding_kinds_raise {C F I} (hash : InterestRateSwap → string * bool)
    (materialise : SwapLeg → result (CouponSpecs C F I))
    (update : CouponSpecs C F I → CouponSpecs C F I
              → CouponSpecs C F I * option Exception)
    config swap_1 swap_2 :
  (∀ current_leg leg, is_fixed_specs current_leg ≠ is_fixed_specs leg →
     update current_leg leg = (current_leg, Some type_mismatch)) →
  (∀ current_leg leg,
     is_fixed_specs current_leg = true → is_fixed_specs leg = true →
     ∃ merged, update current_leg leg = (merged, None)) →
  (∀ s two, legs_of hash materialise s = Ok two →
     is_fixed_specs two.1 = (canonical_kinds s).1
     ∧ is_fixed_specs two.2 = (canonical_kinds s).2) →
  (hash swap_1).1 = (hash swap_2).1 →
  canonical_kinds swap_1 ≠ canonical_kinds swap_2 →
  prepare_loop hash materialise update config ∅ [swap_1; swap_2]
  = match legs_of hash materialise swap_1 with
    | Raise e => Raise e
    | Ok _ =>
        match legs_of hash materialise swap_2 with
        | Raise e => Raise e
        | Ok _ => Raise type_mismatch
        end
    end.
Proof.
  intros Hdiffer Hfixed Hkinds Hhash Hne. simpl.
  rewrite prepare_step_cases.
  destruct (legs_of hash materialise swap_1) as [two_1|e] eqn:Hlegs_1; [|done].
  simpl. rewrite lookup_empty.
  rewrite prepare_step_cases.
  destruct (legs_of hash materialise swap_2) as [two_2|e] eqn:Hlegs_2; [|done].
  simpl. rewrite <- Hhash, lookup_insert_eq. simpl.
  destruct (Hkinds _ _ Hlegs_1) as [Hp1 Hr1],
    (Hkinds _ _ Hlegs_2) as [Hp2 Hr2].
  destruct (decide ((canonical_kinds swap_1).1 = (canonical_kinds swap_2).1))
    as [Hpay|Hpay].
  - assert ((canonical_kinds swap_1).2 ≠ (canonical_kinds swap_2).2) as Hrec.
    { intros Hrec. apply Hne.
      destruct (canonical_kinds swap_1), (canonical_kinds swap_2).
      simpl in *. congruence. }
    assert ((canonical_kinds swap_1).1 = true) as Htrue.
    { unfold canonical_kinds in *. simpl in *.
      destruct (is_fixed_proto (pay_leg swap_1)),
        (is_fixed_proto (receive_leg swap_1)),
        (is_fixed_proto (pay_leg swap_2)),
        (is_fixed_proto (receive_leg swap_2)); simpl in *; done. }
    destruct (Hfixed two_1.1 two_2.1) as [merged ->];
      [congruence|congruence|].
    rewrite Hdiffer; [done|congruence].
  - rewrite Hdiffer; [done|congruence].
Qed.

(** X5. Two swaps that get the same digest although the kinds of their legs
    differ (one has more fixed legs than the other) are not merged:
    [from_protos] and [from_protos_v2] raise on the list made of the two,
    and when the legs of both swaps can be materialised the exception is
    the type-mismatch error of the merge. *)
Theorem colliding_kinds_are_not_merged (swap_1 swap_2 : InterestRateSwap)
    (config : option InterestRateSwapConfig) :
  canonical_kinds swap_1 ≠ canonical_kinds swap_2 →
  ((get_hash swap_1).1 = (get_hash swap_2).1 →
   (∃ e, from_protos [swap_1; swap_2] config = Raise e)
   ∧ (all_materialise leg_from_proto [swap_1; swap_2] →
      from_protos [swap_1; swap_2] config = Raise type_mismatch))
  ∧ ((get_hash_v2 swap_1).1 = (get_hash_v2 swap_2).1 →
     (∃ e, from_protos_v2 [swap_1; swap_2] config = Raise e)
     ∧ (all_materialise leg_from_proto_v2 [swap_1; swap_2] →
        from_protos_v2 [swap_1; swap_2] config = Raise type_mismatch)).
Proof.
  intros Hne. split; intros Hhash.
  - unfold from_protos.
    rewrite (colliding_kinds_raise get_hash leg_from_proto update_leg)
      by auto using update_leg_kinds_differ, update_leg_both_fixed,
           legs_of_kinds.
    split.
    + destruct (legs_of get_hash leg_from_proto swap_1);
        [destruct (legs_of get_hash leg_from_proto swap_2)|]; by eexists.
    + intros Hall.
      destruct (proj2 (legs_of_is_Ok get_hash leg_from_proto swap_1))
        as [two_1 ->]; [apply Hall, elem_of_cons; by left|].
      destruct (proj2 (legs_of_is_Ok get_hash leg_from_proto swap_2))
        as [two_2 ->]; [|done].
      apply Hall, elem_of_cons. right. apply elem_of_cons. by left.
  - assert (∀ current_leg leg : LegV2,
              is_fixed_specs current_leg = true → is_fixed_specs leg = true →
              ∃ merged, update_leg_v2 current_leg leg = (merged, None))
      as Hfixed.
    { intros current_leg leg Hc Hl.
      destruct (update_leg_v2_same_kind current_leg leg) as (m & -> & _);
        [congruence|by eexists]. }
    unfold from_protos_v2.
    rewrite (colliding_kinds_raise get_hash_v2 leg_from_proto_v2 update_leg_v2)
      by auto using update_leg_v2_kinds_differ, legs_of_kinds_v2.
    split.
    + destruct (legs_of get_hash_v2 leg_from_proto_v2 swap_1);
        [destruct (legs_of get_hash_v2 leg_from_proto_v2 swap_2)|];
        by eexists.
    + intros Hall.
      destruct (proj2 (legs_of_is_Ok get_hash_v2 leg_from_proto_v2 swap_1))
        as [two_1 ->]; [apply Hall, elem_of_cons; by left|].
      destruct (proj2 (legs_of_is_Ok get_hash_v2 leg_from_proto_v2 swap_2))
        as [two_2 ->]; [|done].
      apply Hall, elem_of_cons. right. apply elem_of_cons. by left.
Qed.

End FailedMerges.

(** ** Shape of the keys *)

Section KeyShape.
Context `{Collaborators}.

(** X6. The key of one leg has 11 features in the legacy pipeline and 7 in
    the v2 pipeline, whatever the kind of the leg, so that the key of a swap
    has 22 or 14 features and the tuple handed to the hasher 24 or 15. *)
Theorem key_widths (leg leg_1 leg_2 : SwapLeg) (swap_proto : InterestRateSwap) :
  length (_get_keys leg).1 + length (_get_keys leg).2 = 11
  ∧ length (_get_keys_v2 leg).1 + length (_get_keys_v2 leg).2 = 7
  ∧ length (_get_legs_hash_key leg_1 leg_2).2 = 22
  ∧ length (_get_legs_hash_key_v2 leg_1 leg_2).2 = 14
  ∧ length (hashed_tuple swap_proto) = 24
  ∧ length (hashed_tuple_v2 swap_proto) = 15.
Proof.
  split; [by destruct leg|]. split; [by destruct leg|].
  rewrite legs_hash_key_cases, legs_hash_key_v2_cases.
  rewrite hashed_tuple_cases, hashed_tuple_v2_cases.
  repeat split;
    repeat match goal with |- context [if ?b then _ else _] => destruct b end;
    simpl; rewrite ?length_app, ?leg_key_length, ?leg_key_v2_length; done.
Qed.

Lemma leg_shape_v2_of_leg_shape leg :
  leg_shape_v2 leg = v2_of_shape (leg_shape leg).
Proof. by destruct leg. Qed.

Lemma canonical_shape_v2_of_canonical_shape swap_proto :
  canonical_shape_v2 swap_proto
  = (v2_of_shape (shape_pay (canonical_shape swap_proto)),
     v2_of_shape (shape_receive (canonical_shape swap_proto)),
     shape_calendar (canonical_shape swap_proto)).
Proof.
  unfold canonical_shape_v2, canonical_shape.
  destruct (entered_reversed swap_proto); simpl;
    by rewrite !leg_shape_v2_of_leg_shape.
Qed.

(** X7. The two pipelines flip the same swaps, and the legacy grouping is
    finer than the v2 grouping: barring a digest collision on their legacy
    tuples, two swaps with the same legacy digest have the same v2 digest. *)
Theorem legacy_buckets_refine_v2 (swap_1 swap_2 : InterestRateSwap) :
  (get_hash swap_1).2 = (get_hash_v2 swap_1).2
  ∧ (no_collision (json_dumps (hashed_tuple swap_1))
                  (json_dumps (hashed_tuple swap_2)) →
     (get_hash swap_1).1 = (get_hash swap_2).1 →
     (get_hash_v2 swap_1).1 = (get_hash_v2 swap_2).1).
Proof.
  rewrite !get_hash_unfold, !get_hash_v2_unfold. simpl. split; [done|].
  intros Hfree Heq. unfold _hasher in Heq.
  apply Hfree, json_dumps_inj, hashed_tuple_shape in Heq.
  f_equal. apply hashed_tuple_v2_shape.
  by rewrite !canonical_shape_v2_of_canonical_shape, Heq.
Qed.

Lemma entered_reversed_mixed swap_proto :
  is_fixed_proto (pay_leg swap_proto) ≠ is_fixed_proto (receive_leg swap_proto) →
  entered_reversed (mirrored swap_proto) = negb (entered_reversed swap_proto).
Proof.
  unfold entered_reversed, mirrored. simpl.
  by destruct (is_fixed_proto (pay_leg swap_proto)),
    (is_fixed_proto (receive_leg swap_proto)).
Qed.

(** X8. Exchanging the two legs of a swap that has one fixed and one
    floating leg changes neither of its digests and toggles its flip flag;
    exchanging the legs of a swap whose legs are of one kind never sets the
    flag, and changes the tuples unless the two legs have the same
    structural fields. *)
Theorem mirrored_swap_keys (swap_proto : InterestRateSwap) :
  if decide (is_fixed_proto (pay_leg swap_proto)
             = is_fixed_proto (receive_leg swap_proto))
  then
    (get_hash swap_proto).2 = false
    ∧ (get_hash (mirrored swap_proto)).2 = false
    ∧ (hashed_tuple (mirrored swap_proto) = hashed_tuple swap_proto
       ↔ leg_shape (pay_leg swap_proto) = leg_shape (receive_leg swap_proto))
    ∧ (hashed_tuple_v2 (mirrored swap_proto) = hashed_tuple_v2 swap_proto
       ↔ leg_shape_v2 (pay_leg swap_proto)
         = leg_shape_v2 (receive_leg swap_proto))
  else
    get_hash (mirrored swap_proto)
    = ((get_hash swap_proto).1, negb (get_hash swap_proto).2)
    ∧ get_hash_v2 (mirrored swap_proto)
      = ((get_hash_v2 swap_proto).1, negb (get_hash_v2 swap_proto).2).
Proof.
  destruct (decide _) as [Hsame|Hmixed].
  - assert (entered_reversed swap_proto = false
            ∧ entered_reversed (mirrored swap_proto) = false) as [Hrev Hmir].
    { unfold entered_reversed, mirrored. simpl. rewrite Hsame.
      by destruct (is_fixed_proto (receive_leg swap_proto)). }
    rewrite !get_hash_unfold. simpl. do 2 (split; [done|]).
    rewrite !hashed_tuple_cases, !hashed_tuple_v2_cases, Hrev, Hmir. simpl.
    split.
    + rewrite <- leg_key_shape. split.
      * intros Heq. apply app_inj_2 in Heq as [Heq _]; [|done].
        apply app_inj_1 in Heq as [Heq _]; [done|].
        by rewrite !leg_key_length.
      * by intros ->.
    + rewrite <- leg_key_v2_shape. split.
      * intros Heq. apply app_inj_2 in Heq as [Heq _]; [|done].
        apply app_inj_1 in Heq as [Heq _]; [done|].
        by rewrite !leg_key_v2_length.
      * by intros ->.
  - pose proof (entered_reversed_mixed _ Hmixed) as Hmir.
    rewrite !get_hash_unfold, !get_hash_v2_unfold. simpl.
    rewrite Hmir. unfold _hasher.
    rewrite !hashed_tuple_cases, !hashed_tuple_v2_cases, Hmir. simpl.
    by destruct (entered_reversed swap_proto).
Qed.

End KeyShape.

(** ** What a run of the loop keeps *)

Section Runs.
Context `{Collaborators} {C F I : Type}.
Local Abbreviation L := (CouponSpecs C F I).
Variable hash : InterestRateSwap → string * bool.
Variable materialise : SwapLeg → result L.
Variable update : L → L → L * option Exception.
Variable config : option InterestRateSwapConfig.

Lemma prepare_loop_app d list_1 list_2 :
  prepare_loop hash materialise update config d (list_1 ++ list_2)
  = match prepare_loop hash materialise update config d list_1 with
    | Ok d' => prepare_loop hash materialise update config d' list_2
    | Raise e => Raise e
    end.
Proof.
  revert d. induction list_1 as [|swap_proto rest IH]; intros d; simpl.
  - done.
  - by destruct (prepare_step _ _ _ _ d swap_proto).
Qed.

Lemma members_elem h proto_list swap_proto :
  swap_proto ∈ members hash h proto_list
  ↔ (hash swap_proto).1 = h ∧ swap_proto ∈ proto_list.
Proof. unfold members. by rewrite list_elem_of_filter. Qed.

Lemma prepare_loop_lands proto_list d swap_proto :
  prepare_loop hash materialise update config ∅ proto_list = Ok d →
  swap_proto ∈ proto_list →
  ∃ batch, d !! (hash swap_proto).1 = Some batch
           ∧ name_and_type swap_proto ∈ batch_names batch
           ∧ date_list (effective_date swap_proto) ∈ start_date batch
           ∧ date_list (maturity_date swap_proto) ∈ maturity_date_list batch.
Proof.
  intros Hrun Hin.
  pose proof (prepare_loop_content _ _ _ _ _ _ Hrun (hash swap_proto).1)
    as Hcontent.
  assert (swap_proto ∈ members hash (hash swap_proto).1 proto_list) as Hmem.
  { by apply members_elem. }
  destruct (d !! (hash swap_proto).1) as [batch|].
  - exists batch. split; [done|].
    destruct Hcontent as [_ (-> & -> & -> & _)].
    repeat split; by apply list_elem_of_fmap_2'  with swap_proto.
  - rewrite Hcontent in Hmem. by apply not_elem_of_nil in Hmem.
Qed.

Lemma prepare_loop_no_empty_bucket proto_list d h batch :
  prepare_loop hash materialise update config ∅ proto_list = Ok d →
  d !! h = Some batch →
  ∃ swap_proto, swap_proto ∈ proto_list ∧ (hash swap_proto).1 = h.
Proof.
  intros Hrun Hlook.
  pose proof (prepare_loop_content _ _ _ _ _ _ Hrun h) as Hcontent.
  rewrite Hlook in Hcontent. destruct Hcontent as [Hne _].
  destruct (members hash h proto_list) as [|s rest] eqn:Hmem; [done|].
  exists s. assert (s ∈ members hash h proto_list) as Hs.
  { rewrite Hmem. apply elem_of_cons. by left. }
  apply members_elem in Hs as [? ?]. done.
Qed.

Lemma prepare_loop_config proto_list d :
  prepare_loop hash materialise update config ∅ proto_list = Ok d →
  map_Forall (λ _ batch, swap_config batch = config) d.
Proof.
  intros Hrun h batch Hlook.
  pose proof (prepare_loop_content _ _ _ _ _ _ Hrun h) as Hcontent.
  rewrite Hlook in Hcontent. by destruct Hcontent as [_ (_ & _ & _ & -> & _)].
Qed.

End Runs.

Section RunResults.
Context `{Collaborators}.

(** X9. Processing a list made of two parts is processing the second part
    from the buckets the first part gives; an exception raised in the first
    part is the outcome of the whole call, whatever follows. *)
Theorem from_protos_of_app (list_1 list_2 : list InterestRateSwap)
    (config : option InterestRateSwapConfig) :
  from_protos (list_1 ++ list_2) config
  = match from_protos list_1 config with
    | Ok d => prepare_loop get_hash leg_from_proto update_leg config d list_2
    | Raise e => Raise e
    end
  ∧ from_protos_v2 (list_1 ++ list_2) config
    = match from_protos_v2 list_1 config with
      | Ok d =>
          prepare_loop get_hash_v2 leg_from_proto_v2 update_leg_v2 config d
                       list_2
      | Raise e => Raise e
      end.
Proof. split; apply prepare_loop_app. Qed.

(** X10. Every batch returned by [from_protos] and by [from_protos_v2]
    carries the [swap_config] the call was given. *)
Theorem batches_carry_config (proto_list : list InterestRateSwap)
    (config : option InterestRateSwapConfig) :
  (∀ d, from_protos proto_list config = Ok d →
     map_Forall (λ _ batch, swap_config batch = config) d)
  ∧ (∀ d, from_protos_v2 proto_list config = Ok d →
       map_Forall (λ _ batch, swap_config batch = config) d).
Proof. split; intros d Hrun; by eapply prepare_loop_config. Qed.

(** X11. Equal results of [_hasher] on different tuples can only come from
    the digest: the serialisation of a tuple determines the tuple. *)
Theorem hasher_collisions_come_from_digest (obj_1 obj_2 : list (option Z)) :
  _hasher obj_1 = _hasher obj_2 →
  obj_1 = obj_2
  ∨ (json_dumps obj_1 ≠ json_dumps obj_2
     ∧ md5_hexdigest (json_dumps obj_1) = md5_hexdigest (json_dumps obj_2)).
Proof.
  unfold _hasher. intros Heq.
  destruct (decide (json_dumps obj_1 = json_dumps obj_2)) as [Htext|Htext].
  - left. by apply json_dumps_inj.
  - by right.
Qed.

(** X12. When [from_protos] (or [from_protos_v2]) returns, every swap of
    the list is in the bucket of its digest, with its name, its start date
    and its maturity date, and every bucket is the bucket of a swap of the
    list. *)
Theorem every_swap_lands_in_its_bucket (proto_list : list InterestRateSwap)
    (config : option InterestRateSwapConfig) :
  (∀ d, from_protos proto_list config = Ok d →
     (∀ s, s ∈ proto_list →
        ∃ batch, d !! (get_hash s).1 = Some batch
                 ∧ name_and_type s ∈ batch_names batch
                 ∧ date_list (effective_date s) ∈ start_date batch
                 ∧ date_list (maturity_date s) ∈ maturity_date_list batch)
     ∧ (∀ h batch, d !! h = Some batch →
          ∃ s, s ∈ proto_list ∧ (get_hash s).1 = h))
  ∧ (∀ d, from_protos_v2 proto_list config = Ok d →
       (∀ s, s ∈ proto_list →
          ∃ batch, d !! (get_hash_v2 s).1 = Some batch
                   ∧ name_and_type s ∈ batch_names batch
                   ∧ date_list (effective_date s) ∈ start_date batch
                   ∧ date_list (maturity_date s) ∈ maturity_date_list batch)
       ∧ (∀ h batch, d !! h = Some batch →
            ∃ s, s ∈ proto_list ∧ (get_hash_v2 s).1 = h)).
Proof.
  split; intros d Hrun; split.
  - intros s Hs. by eapply prepare_loop_lands.
  - intros h batch Hlook. by eapply prepare_loop_no_empty_bucket.
  - intros s Hs. by eapply prepare_loop_lands.
  - intros h batch Hlook. by eapply prepare_loop_no_empty_bucket.
Qed.

End RunResults.

(** ** Counting the entries *)

Section Counting.
Context {A : Type}.
Variable size : A → nat.

Lemma entries_empty : entries size ∅ = 0.
Proof. unfold entries. by rewrite map_to_list_empty. Qed.

Lemma entries_insert_fresh (d : gmap string A) h x :
  d !! h = None → entries size (<[h := x]> d) = size x + entries size d.
Proof.
  intros Hfresh. unfold entries. by rewrite map_to_list_insert.
Qed.

Lemma entries_insert_present (d : gmap string A) h x y :
  d !! h = Some x →
  entries size (<[h := y]> d) + size x = size y + entries size d.
Proof.
  intros Hlook. rewrite <- (insert_delete_eq d).
  rewrite <- (insert_delete_id d h x Hlook) at 2.
  rewrite !entries_insert_fresh by apply lookup_delete_eq. lia.
Qed.

End Counting.

Section CountingRuns.
Context `{Collaborators} {C F I : Type}.
Local Abbreviation L := (CouponSpecs C F I).
Variable hash : InterestRateSwap → string * bool.
Variable materialise : SwapLeg → result L.
Variable update : L → L → L * option Exception.
Variable config : option InterestRateSwapConfig.

Lemma prepare_loop_entries proto_list d :
  prepare_loop hash materialise update config ∅ proto_list = Ok d →
  entries (λ batch : Batch L, length (batch_names batch)) d
  = length proto_list.
Proof.
  intros Hrun.
  apply (prepare_loop_invariant hash materialise update config
           (λ seen d, entries (λ batch : Batch L, length (batch_names batch)) d
                      = length seen)) with (seen := []) (d := ∅);
    [|apply entries_empty|done].
  clear. intros seen d swap_proto d' Hcount.
  rewrite prepare_step_cases.
  destruct (legs_of hash materialise swap_proto) as [two|e]; [|done].
  simpl. rewrite length_app. simpl.
  destruct (d !! (hash swap_proto).1) as [batch|] eqn:Hlook.
  - destruct (update (batch_pay_leg batch) _) as [cp [e|]]; [done|].
    destruct (update (batch_receive_leg batch) _) as [cr [e|]]; [done|].
    intros [= <-].
    pose proof (entries_insert_present
                  (λ batch : Batch L, length (batch_names batch)) d
                  (hash swap_proto).1 batch
                  {| start_date := start_date batch
                       ++ [date_list (effective_date swap_proto)];
                     maturity_date_list := maturity_date_list batch
                       ++ [date_list (maturity_date swap_proto)];
                     batch_pay_leg := cp;
                     batch_receive_leg := cr;
                     swap_config := swap_config batch;
                     batch_names := batch_names batch
                       ++ [name_and_type swap_proto] |} Hlook) as Hins.
    simpl in Hins. rewrite length_app in Hins. simpl in Hins. lia.
  - intros [= <-]. rewrite entries_insert_fresh by done. simpl. lia.
Qed.

Lemma group_fold_entries proto_list
    (grouped : gmap string (list InterestRateSwap)) :
  entries length (foldl (group_step hash) grouped proto_list)
  = entries length grouped + length proto_list.
Proof.
  revert grouped. induction proto_list as [|swap_proto rest IH];
    intros grouped; simpl; [lia|].
  rewrite IH. unfold group_step.
  destruct (hash swap_proto) as [h flip].
  destruct (grouped !! h) as [group|] eqn:Hlook.
  - pose proof (entries_insert_present length grouped h group
                  (group ++ [swap_proto]) Hlook) as Hins.
    rewrite length_app in Hins. simpl in Hins. lia.
  - rewrite entries_insert_fresh by done. simpl. lia.
Qed.

End CountingRuns.

Section CountingResults.
Context `{Collaborators}.

(** X13. The groups returned by [group_protos] (and [group_protos_v2])
    hold as many swaps, all together, as the list has, and so do the
    batches returned by [from_protos] (and [from_protos_v2]): no swap is
    dropped and none is counted twice. *)
Theorem buckets_partition_the_list (proto_list : list InterestRateSwap)
    (config : option InterestRateSwapConfig) :
  entries length (group_protos proto_list config) = length proto_list
  ∧ entries length (group_protos_v2 proto_list config) = length proto_list
  ∧ (∀ d, from_protos proto_list config = Ok d →
       entries (λ batch, length (batch_names batch)) d = length proto_list)
  ∧ (∀ d, from_protos_v2 proto_list config = Ok d →
       entries (λ batch, length (batch_names batch)) d = length proto_list).
Proof.
  split; [|split; [|split]].
  - unfold group_protos. by rewrite group_fold_entries, entries_empty.
  - unfold group_protos_v2. by rewrite group_fold_entries, entries_empty.
  - intros d Hrun. by eapply prepare_loop_entries.
  - intros d Hrun. by eapply prepare_loop_entries.
Qed.

End CountingResults.

(** ** The fields a batch takes from its first swap *)

Section Heads.
Context `{Collaborators} {C F I : Type}.
Local Abbreviation L := (CouponSpecs C F I).
Variable hash : InterestRateSwap → string * bool.
Variable materialise : SwapLeg → result L.
Variable update : L → L → L * option Exception.
Variable config : option InterestRateSwapConfig.

Lemma buckets_head_step seen d swap_proto d' :
  buckets_content hash materialise update config seen d
  ∧ map_Forall (λ h, bucket_head hash materialise update h seen) d →
  prepare_step hash materialise update config d swap_proto = Ok d' →
  buckets_content hash materialise update config (seen ++ [swap_proto]) d'
  ∧ map_Forall
      (λ h, bucket_head hash materialise update h (seen ++ [swap_proto])) d'.
Proof.
  intros [Hcontent Hheads] Hstep.
  split; [by eapply buckets_content_step|].
  revert Hstep. rewrite prepare_step_cases.
  destruct (legs_of hash materialise swap_proto) as [two|e] eqn:Hlegs; [|done].
  simpl.
  pose proof (Hcontent (hash swap_proto).1) as Hhs.
  destruct (d !! (hash swap_proto).1) as [batch|] eqn:Hlook.
  - destruct (update (batch_pay_leg batch) _) as [cp [e|]] eqn:Hpay; [done|].
    destruct (update (batch_receive_leg batch) _) as [cr [e|]] eqn:Hrecv;
      [done|].
    intros [= <-] h b.
    destruct (decide ((hash swap_proto).1 = h)) as [<-|Hne].
    + rewrite lookup_insert_eq. intros [= <-].
      destruct (Hheads _ _ Hlook) as (first & rest & pair & Hmem & Hfirst
                                      & Hkept).
      exists first, (rest ++ [swap_proto]), pair.
      rewrite members_snoc, decide_True, Hmem by done.
      split; [done|]. split; [done|].
      intros A f Hf. simpl.
      rewrite (Hf _ _ _ Hpay), (Hf _ _ _ Hrecv). by apply Hkept.
    + rewrite lookup_insert_ne by done. intros Hb.
      destruct (Hheads _ _ Hb) as (first & rest & pair & Hmem & Hfirst
                                   & Hkept).
      exists first, rest, pair.
      by rewrite members_snoc, decide_False, app_nil_r.
  - intros [= <-] h b.
    destruct (decide ((hash swap_proto).1 = h)) as [<-|Hne].
    + rewrite lookup_insert_eq. intros [= <-].
      exists swap_proto, [], two.
      by rewrite members_snoc, decide_True, Hhs.
    + rewrite lookup_insert_ne by done. intros Hb.
      destruct (Hheads _ _ Hb) as (first & rest & pair & Hmem & Hfirst
                                   & Hkept).
      exists first, rest, pair.
      by rewrite members_snoc, decide_False, app_nil_r.
Qed.

Lemma prepare_loop_heads proto_list d :
  prepare_loop hash materialise update config ∅ proto_list = Ok d →
  map_Forall (λ h, bucket_head hash materialise update h proto_list) d.
Proof.
  intros Hrun.
  apply (prepare_loop_invariant hash materialise update config
           (λ seen d,
              buckets_content hash materialise update config seen d
              ∧ map_Forall (λ h, bucket_head hash materialise update h seen) d)
           buckets_head_step proto_list [] ∅ d); [|done].
  split; [|apply map_Forall_empty]. intros h. by rewrite lookup_empty.
Qed.

End Heads.

Section HeadResults.
Context `{Collaborators}.

Lemma update_leg_keeps :
  kept_by update_leg leg_conventions
  ∧ kept_by update_leg leg_currency_and_frequencies.
Proof.
  split; intros [cur|cur] [new|new] merged Hupdate; try done.
  - by injection Hupdate as <-.
  - by apply update_leg_float_ok in Hupdate as [_ ->].
  - by injection Hupdate as <-.
  - by apply update_leg_float_ok in Hupdate as [_ ->].
Qed.

Lemma update_leg_v2_keeps :
  kept_by update_leg_v2 leg_conventions
  ∧ kept_by update_leg_v2 leg_frequency_types.
Proof.
  split; intros [cur|cur] [new|new] merged Hupdate; try done;
    by injection Hupdate as <-.
Qed.

(** X14. In a batch returned by [from_protos], the business-day rule, the
    day-count convention, the calendar, the currency and the frequencies of
    each leg are those of the first swap of the list that has the digest of
    the batch; the swaps merged later leave them as they are. In a batch
    returned by [from_protos_v2] so are the business-day rule, the
    day-count convention, the calendar and the types of the frequencies. *)
Theorem batch_conventions_are_those_of_first_swap
    (proto_list : list InterestRateSwap)
    (config : option InterestRateSwapConfig) :
  (∀ d h batch,
     from_protos proto_list config = Ok d → d !! h = Some batch →
     ∃ first rest two,
       members get_hash h proto_list = first :: rest
       ∧ legs_of get_hash leg_from_proto first = Ok two
       ∧ leg_conventions (batch_pay_leg batch) = leg_conventions two.1
       ∧ leg_conventions (batch_receive_leg batch) = leg_conventions two.2
       ∧ leg_currency_and_frequencies (batch_pay_leg batch)
         = leg_currency_and_frequencies two.1
       ∧ leg_currency_and_frequencies (batch_receive_leg batch)
         = leg_currency_and_frequencies two.2)
  ∧ (∀ d h batch,
       from_protos_v2 proto_list config = Ok d → d !! h = Some batch →
       ∃ first rest two,
         members get_hash_v2 h proto_list = first :: rest
         ∧ legs_of get_hash_v2 leg_from_proto_v2 first = Ok two
         ∧ leg_conventions (batch_pay_leg batch) = leg_conventions two.1
         ∧ leg_conventions (batch_receive_leg batch) = leg_conventions two.2
         ∧ leg_frequency_types (batch_pay_leg batch)
           = leg_frequency_types two.1
         ∧ leg_frequency_types (batch_receive_leg batch)
           = leg_frequency_types two.2).
Proof.
  split; intros d h batch Hrun Hlook.
  - destruct (prepare_loop_heads _ _ _ _ _ _ Hrun h batch Hlook)
      as (first & rest & two & Hmem & Hfirst & Hkept).
    destruct update_leg_keeps as [Hk1 Hk2].
    exists first, rest, two. do 2 (split; [done|]).
    destruct (Hkept _ _ Hk1) as [-> ->], (Hkept _ _ Hk2) as [-> ->]. done.
  - destruct (prepare_loop_heads _ _ _ _ _ _ Hrun h batch Hlook)
      as (first & rest & two & Hmem & Hfirst & Hkept).
    destruct update_leg_v2_keeps as [Hk1 Hk2].
    exists first, rest, two. do 2 (split; [done|]).
    destruct (Hkept _ _ Hk1) as [-> ->], (Hkept _ _ Hk2) as [-> ->]. done.
Qed.

End HeadResults.

(** * Worked examples *)

Section Examples.
#[local] Existing Instance sample_collaborators.

(** [swap_a] and [swap_b] differ in their notionals only and share a bucket
    under both versions; [swap_other_currency] is kept apart from [swap_a] by
    the legacy hash. *)
Lemma bucket_hash_by_shape_witness :
  (get_hash swap_a = get_hash swap_b
   ∧ get_hash_v2 swap_a = get_hash_v2 swap_b)
  ∧ (get_hash swap_a).1 ≠ (get_hash swap_other_currency).1.
Proof.
  split.
  - destruct (bucket_hash_by_shape swap_a swap_b) as (Hsame & _ & _).
    apply Hsame. reflexivity.
  - destruct (bucket_hash_by_shape swap_a swap_other_currency)
      as (_ & Hlegacy & _).
    intros Heq. apply (Hlegacy (λ e, e)) in Heq.
    vm_compute in Heq. discriminate Heq.
Defined.

(** The two swaps differ in their currency, and [get_hash_v2] hands the
    same tuple to the digest for both. *)
Lemma v2_hash_ignores_currency :
  currency swap_a ≠ currency swap_other_currency
  ∧ swap_shape swap_a ≠ swap_shape swap_other_currency
  ∧ hashed_tuple_v2 swap_a = hashed_tuple_v2 swap_other_currency
  ∧ (get_hash_v2 swap_a).1 = (get_hash_v2 swap_other_currency).1.
Proof.
  split; [|split; [|split]].
  - vm_compute. discriminate.
  - vm_compute. discriminate.
  - reflexivity.
  - reflexivity.
Qed.

(** The conversions of the sample collaborators know every code. *)
Lemma sample_leg_materialises leg_proto :
  is_Ok (leg_from_proto leg_proto) ∧ is_Ok (leg_from_proto_v2 leg_proto).
Proof. destruct leg_proto; split; eexists; reflexivity. Qed.

Lemma sample_all_materialise proto_list :
  all_materialise leg_from_proto proto_list
  ∧ all_materialise leg_from_proto_v2 proto_list.
Proof. split; intros s _; split; apply sample_leg_materialises. Qed.

Lemma sample_collision_free tuple proto_list :
  collision_free tuple proto_list.
Proof. intros s1 s2 _ _ Heq. exact Heq. Qed.

(** [swap_reversed] is entered with a floating pay leg: it hashes like its
    mirror, and its fixed leg is stored as the pay leg and its floating leg
    as the receive leg, both with notional -3,000,000. *)
Lemma flip_correctness_witness :
  entered_reversed swap_reversed = true
  ∧ get_hash swap_reversed = ((get_hash (mirrored swap_reversed)).1, true)
  ∧ is_Ok (from_protos [swap_reversed] None)
  ∧ (∃ two, legs_of get_hash leg_from_proto swap_reversed = Ok two
            ∧ is_fixed_specs two.1 = true
            ∧ notional_of two.1 = [(-3000000)%float]
            ∧ notional_of two.2 = [(-3000000)%float])
  ∧ (∃ two, legs_of get_hash_v2 leg_from_proto_v2 swap_reversed = Ok two
            ∧ is_fixed_specs two.1 = true
            ∧ notional_of two.1 = [(-3000000)%float]
            ∧ notional_of two.2 = [(-3000000)%float]).
Proof.
  split; [reflexivity|].
  destruct (flip_correctness swap_reversed None eq_refl)
    as [(Hhash & _ & Hreturns & _ & Hlegs) (_ & _ & _ & _ & Hlegs_v2)].
  split; [exact Hhash|]. split; [|split].
  - apply Hreturns. split; apply sample_leg_materialises.
  - destruct (Hlegs _ _ eq_refl eq_refl) as (_ & Hflipped & _).
    eexists. split; [exact Hflipped|]. vm_compute. repeat split.
  - destruct (Hlegs_v2 _ _ eq_refl eq_refl) as (_ & Hflipped & _).
    eexists. split; [exact Hflipped|]. vm_compute. repeat split.
Defined.

Lemma sample_bucket :
  match from_protos sample_list None with
  | Ok d => d !! sample_key
  | Raise _ => None
  end = Some sample_batch.
Proof. vm_compute. reflexivity. Qed.

Lemma sample_members : members get_hash sample_key sample_list = sample_list.
Proof. vm_compute. reflexivity. Qed.

Lemma sample_bucket_v2 :
  match from_protos_v2 sample_list None with
  | Ok d => d !! sample_key_v2
  | Raise _ => None
  end = Some sample_batch_v2.
Proof. vm_compute. reflexivity. Qed.

Lemma sample_members_v2 :
  members get_hash_v2 sample_key_v2 sample_list = sample_list.
Proof. vm_compute. reflexivity. Qed.

(** Under the v2 pipeline a bucket of two swaps holds two rate indices,
    each with one name and one source: the names and the sources are not
    sequences of the length of the batch. *)
Lemma v2_rate_index_names_stay_single :
  match from_protos_v2 [swap_a; swap_b] None with
  | Ok d =>
      (λ batch,
         (length (start_date batch), length (batch_names batch),
          (λ index, (length (ri_name index), length (ri_source index)))
            <$> rate_indices_of (batch_receive_leg batch)))
        <$> d !! sample_key_v2
  | Raise _ => None
  end = Some (2, 2, [(1, 1); (1, 1)]).
Proof. vm_compute. reflexivity. Qed.

(** The three sample swaps fall into one bucket of three entries, under
    both versions. *)
Lemma batch_sequences_equal_length_witness :
  (∃ d,
     from_protos sample_list None = Ok d
     ∧ d !! sample_key = Some sample_batch
     ∧ length (start_date sample_batch)
       = length (members get_hash sample_key sample_list)
     ∧ bucket_sized leg_lengths sample_batch)
  ∧ (∃ d,
       from_protos_v2 sample_list None = Ok d
       ∧ d !! sample_key_v2 = Some sample_batch_v2
       ∧ length (start_date sample_batch_v2)
         = length (members get_hash_v2 sample_key_v2 sample_list)
       ∧ bucket_sized leg_lengths_v2 sample_batch_v2).
Proof.
  destruct (batch_sequences_equal_length sample_list None)
    as [Hlegacy Hv2].
  split.
  - pose proof sample_bucket as Hbucket.
    destruct (from_protos sample_list None) as [d|e] eqn:Hrun;
      [|discriminate Hbucket].
    exists d. split; [reflexivity|]. split; [exact Hbucket|].
    exact (Hlegacy d eq_refl sample_key sample_batch Hbucket).
  - pose proof sample_bucket_v2 as Hbucket.
    destruct (from_protos_v2 sample_list None) as [d|e] eqn:Hrun;
      [|discriminate Hbucket].
    exists d. split; [reflexivity|]. split; [exact Hbucket|].
    exact (Hv2 d eq_refl sample_key_v2 sample_batch_v2 Hbucket).
Defined.

(** Both pipelines return on the sample list, and the names and notionals
    of the bucket come out in the order of the list, the notional of the
    reversed swap negated. *)
Lemma batches_preserve_encounter_order_witness :
  (∃ d legs,
     from_protos sample_list None = Ok d
     ∧ d !! sample_key = Some sample_batch
     ∧ materialised get_hash leg_from_proto sample_list legs
     ∧ batch_names sample_batch = name_and_type <$> sample_list
     ∧ notional_of (batch_pay_leg sample_batch)
       = legs ≫= (λ two, notional_of two.1))
  ∧ (∃ d legs,
       from_protos_v2 sample_list None = Ok d
       ∧ d !! sample_key_v2 = Some sample_batch_v2
       ∧ materialised get_hash_v2 leg_from_proto_v2 sample_list legs
       ∧ batch_names sample_batch_v2 = name_and_type <$> sample_list
       ∧ notional_of (batch_pay_leg sample_batch_v2)
         = legs ≫= (λ two, notional_of two.1)).
Proof.
  destruct (batches_preserve_encounter_order sample_list None)
    as [[Hreturns Hcontent] [Hreturns_v2 Hcontent_v2]].
  split.
  - destruct (Hreturns (sample_collision_free _ _)
                (proj1 (sample_all_materialise _))) as [d Hrun].
    pose proof sample_bucket as Hbucket. rewrite Hrun in Hbucket.
    pose proof (Hcontent d sample_key Hrun) as Hmembers.
    rewrite sample_members in Hmembers.
    destruct Hmembers
      as (batch & legs & Hlook & Hlegs & _ & _ & _ & Hnames & [Hnotional _]
          & _).
    assert (batch = sample_batch) as -> by congruence.
    exists d, legs. split; [exact Hrun|]. split; [exact Hbucket|].
    split; [exact Hlegs|]. split; [exact Hnames|exact Hnotional].
  - destruct (Hreturns_v2 (sample_collision_free _ _)
                (proj2 (sample_all_materialise _))) as [d Hrun].
    pose proof sample_bucket_v2 as Hbucket. rewrite Hrun in Hbucket.
    pose proof (Hcontent_v2 d sample_key_v2 Hrun) as Hmembers.
    rewrite sample_members_v2 in Hmembers.
    destruct Hmembers
      as (batch & legs & Hlook & Hlegs & _ & _ & _ & Hnames & [Hnotional _]
          & _).
    assert (batch = sample_batch_v2) as -> by congruence.
    exists d, legs. split; [exact Hrun|]. split; [exact Hbucket|].
    split; [exact Hlegs|]. split; [exact Hnames|exact Hnotional].
Defined.

End Examples.

(** * Worked examples for the further properties *)

Section FurtherExamples.
#[local] Existing Instance sample_collaborators.

Lemma sample_returns :
  ∃ d, from_protos sample_list None = Ok d
       ∧ d !! sample_key = Some sample_batch.
Proof.
  pose proof sample_bucket as Hbucket.
  destruct (from_protos sample_list None) as [d|e]; [|discriminate Hbucket].
  exists d. split; [reflexivity|exact Hbucket].
Qed.

Lemma from_protos_buckets_are_groups_witness :
  ∃ d, from_protos sample_list None = Ok d
       ∧ batch_names <$> d !! sample_key
         = fmap name_and_type <$> group_protos sample_list None !! sample_key.
Proof.
  destruct sample_returns as (d & Hrun & _). exists d. split; [exact Hrun|].
  apply (proj1 (from_protos_buckets_are_groups sample_list None None)
           d sample_key Hrun).
Defined.

Lemma from_protos_returns_without_collision_witness :
  is_Ok (from_protos sample_list None)
  ∧ is_Ok (from_protos_v2 sample_list None).
Proof.
  destruct (from_protos_returns_without_collision sample_list None)
    as [Hlegacy Hv2].
  split.
  - apply (proj2 (Hlegacy (sample_collision_free _ _))).
    apply sample_all_materialise.
  - apply (proj2 (Hv2 (sample_collision_free _ _))).
    apply sample_all_materialise.
Defined.

Lemma update_leg_index_mismatch_keeps_notional_witness :
  (update_leg (Float (sample_float_specs 2)) (Float (sample_float_specs 3))).2
  = Some (ValueError "Can not join 2 and 3")
  ∧ notional_of (update_leg (Float (sample_float_specs 2))
                            (Float (sample_float_specs 3))).1
    = [1000000%float; 1000000%float]
  ∧ spread_of (update_leg (Float (sample_float_specs 2))
                          (Float (sample_float_specs 3))).1
    = [0.001953125%float].
Proof.
  destruct (update_leg_index_mismatch_keeps_notional
              (sample_float_specs 2) (sample_float_specs 3))
    as (Hraised & Hnotional & Hspread & _).
  - vm_compute. discriminate.
  - split; [|split; [exact Hnotional|exact Hspread]].
    etrans; [exact Hraised|]. vm_compute. reflexivity.
Defined.

Lemma legacy_buckets_refine_v2_witness :
  (get_hash swap_a).2 = (get_hash_v2 swap_a).2
  ∧ (get_hash_v2 swap_a).1 = (get_hash_v2 swap_b).1.
Proof.
  destruct (legacy_buckets_refine_v2 swap_a swap_b) as [Hflag Hrefine].
  split; [exact Hflag|]. apply Hrefine.
  - exact (λ e, e).
  - vm_compute. reflexivity.
Defined.

Lemma batches_carry_config_witness :
  ∃ d, from_protos sample_list None = Ok d
       ∧ map_Forall (λ _ batch, swap_config batch = None) d.
Proof.
  destruct sample_returns as (d & Hrun & _). exists d. split; [exact Hrun|].
  exact (proj1 (batches_carry_config sample_list None) d Hrun).
Defined.

Lemma every_swap_lands_in_its_bucket_witness :
  ∃ d batch,
    from_protos sample_list None = Ok d
    ∧ d !! (get_hash swap_reversed).1 = Some batch
    ∧ name_and_type swap_reversed ∈ batch_names batch.
Proof.
  destruct sample_returns as (d & Hrun & _).
  destruct (proj1 (proj1 (every_swap_lands_in_its_bucket sample_list None)
                     d Hrun) swap_reversed)
    as (batch & Hlook & Hname & _).
  - unfold sample_list. rewrite !elem_of_cons. auto.
  - exists d, batch. split; [exact Hrun|]. split; [exact Hlook|exact Hname].
Defined.

Lemma buckets_partition_the_list_witness :
  entries length (group_protos sample_list None) = 3
  ∧ ∃ d, from_protos sample_list None = Ok d
         ∧ entries (λ batch, length (batch_names batch)) d = 3.
Proof.
  destruct (buckets_partition_the_list sample_list None)
    as (Hgroups & _ & Hbatches & _).
  split; [exact Hgroups|].
  destruct sample_returns as (d & Hrun & _). exists d. split; [exact Hrun|].
  exact (Hbatches d Hrun).
Defined.

Lemma batch_conventions_are_those_of_first_swap_witness :
  ∃ d first rest two,
    from_protos sample_list None = Ok d
    ∧ members get_hash sample_key sample_list = first :: rest
    ∧ legs_of get_hash leg_from_proto first = Ok two
    ∧ leg_conventions (batch_pay_leg sample_batch) = leg_conventions two.1.
Proof.
  destruct sample_returns as (d & Hrun & Hlook).
  destruct (proj1 (batch_conventions_are_those_of_first_swap sample_list None)
              d sample_key sample_batch Hrun Hlook)
    as (first & rest & two & Hmem & Hfirst & Hconv & _).
  exists d, first, rest, two. split; [exact Hrun|]. split; [exact Hmem|].
  split; [exact Hfirst|exact Hconv].
Defined.

End FurtherExamples.

Section CollidingExamples.
#[local] Existing Instance colliding_collaborators.

Lemma colliding_leg_materialises leg_proto :
  is_Ok (leg_from_proto leg_proto) ∧ is_Ok (leg_from_proto_v2 leg_proto).
Proof. destruct leg_proto; split; eexists; reflexivity. Qed.

Lemma colliding_all_materialise proto_list :
  all_materialise leg_from_proto proto_list
  ∧ all_materialise leg_from_proto_v2 proto_list.
Proof. split; intros s _; split; apply colliding_leg_materialises. Qed.

(** Under a digest that sends every text to one string, a vanilla swap and
    a basis swap meet in one bucket, and the merge is refused. *)
Lemma colliding_kinds_are_not_merged_witness :
  from_protos [colliding_vanilla; colliding_basis] None = Raise type_mismatch
  ∧ from_protos_v2 [colliding_vanilla; colliding_basis] None
    = Raise type_mismatch.
Proof.
  destruct (colliding_kinds_are_not_merged colliding_vanilla colliding_basis
              None) as [Hlegacy Hv2].
  - vm_compute. discriminate.
  - split.
    + destruct Hlegacy as [_ Hraise]; [vm_compute; reflexivity|].
      apply Hraise, colliding_all_materialise.
    + destruct Hv2 as [_ Hraise]; [vm_compute; reflexivity|].
      apply Hraise, colliding_all_materialise.
Defined.

(** Under that digest the tuples [(1,)] and [(2,)] get one hash: their
    serialisations differ and the digest collides on them. *)
Lemma hasher_collisions_come_from_digest_witness :
  _hasher [Some 1%Z] = _hasher [Some 2%Z]
  ∧ [Some 1%Z] ≠ [Some 2%Z]
  ∧ ([Some 1%Z] = [Some 2%Z]
     ∨ (json_dumps [Some 1%Z] ≠ json_dumps [Some 2%Z]
        ∧ md5_hexdigest (json_dumps [Some 1%Z])
          = md5_hexdigest (json_dumps [Some 2%Z]))).
Proof.
  split; [vm_compute; reflexivity|]. split; [discriminate|].
  apply (hasher_collisions_come_from_digest [Some 1%Z] [Some 2%Z]).
  vm_compute. reflexivity.
Defined.

End CollidingExamples.
